(** * bookmark-miner: the analysis pipeline of [bookmark_miner.py]

    A shallow embedding of the bookmark extraction ([BookmarkParser]),
    of the text normalisation done when a [Bookmark] is built, and of the
    heuristics of [ProjectAnalyzer], followed by the properties established
    about them.

    Conventions of the embedding.
    - A Python [str] is a list of characters; a character is a code point
      below 256 (ASCII and Latin-1), classified as the interpreter does.
    - A Python [float] is an IEEE 754 binary64 number.
    - A raised exception is a value of [result]; exceptions are never caught
      by the program, so a raise aborts the enclosing call.
    - The interpreter's limits on memory and recursion depth are not part of
      the embedding. *)

From Stdlib Require Import List Ascii Bool Arith NArith ZArith Lia Permutation.
From Stdlib Require Import Sorted.
From Stdlib Require Import PrimFloat PrimInt63.
From Stdlib Require String DecimalString.
Import ListNotations.

Set Warnings "-inexact-float,-via-type-mismatch,-via-type-remapping".
Set Warnings "-register-all".

(** ** Strings *)

Definition str := list ascii.

Inductive str_literal := LitNil | LitCons (c : ascii) (l : str_literal).

Fixpoint literal_of_bytes (l : list Byte.byte) : str_literal :=
  match l with
  | [] => LitNil
  | b :: r => LitCons (ascii_of_byte b) (literal_of_bytes r)
  end.

Fixpoint bytes_of_literal (l : str_literal) : list Byte.byte :=
  match l with
  | LitNil => []
  | LitCons c r => byte_of_ascii c :: bytes_of_literal r
  end.

Declare Scope str_scope.
Delimit Scope str_scope with str.
String Notation str literal_of_bytes bytes_of_literal
  (via str_literal mapping [[nil] => LitNil, [cons] => LitCons]) : str_scope.
Bind Scope str_scope with str.
Open Scope str_scope.

Module Py.

Definition code (c : ascii) : N := N_of_ascii c.

Definition between (lo hi : N) (c : ascii) : bool :=
  (lo <=? code c)%N && (code c <=? hi)%N.

Definition code_is (n : N) (c : ascii) : bool := (code c =? n)%N.

Fixpoint str_eqb (a b : str) : bool :=
  match a, b with
  | [], [] => true
  | x :: a', y :: b' => Ascii.eqb x y && str_eqb a' b'
  | _, _ => false
  end.

(** [c.isspace()], which is also the class [\s] of [re] on [str]. *)
Definition isspace (c : ascii) : bool :=
  between 9 13 c || between 28 32 c || code_is 133 c || code_is 160 c.

(** The class [\w] of [re] on [str]: [c.isalnum() or c == '_']. *)
Definition isword (c : ascii) : bool :=
  between 48 57 c || between 65 90 c || between 97 122 c || code_is 95 c
  || code_is 170 c || code_is 178 c || code_is 179 c || code_is 181 c
  || code_is 185 c || code_is 186 c
  || between 188 190 c || between 192 214 c || between 216 246 c
  || between 248 255 c.

(** [c.isascii() and c.isalpha()]. *)
Definition isascii_alpha (c : ascii) : bool :=
  between 65 90 c || between 97 122 c.

Definition lower_chr (c : ascii) : ascii :=
  if between 65 90 c || between 192 214 c || between 216 222 c
  then ascii_of_N (code c + 32)
  else c.

(** [s.lower()] *)
Definition lower (s : str) : str := map lower_chr s.

Fixpoint dropwhile (f : ascii -> bool) (s : str) : str :=
  match s with
  | [] => []
  | c :: s' => if f c then dropwhile f s' else s
  end.

(** [s.lstrip(chars)], [chars] given as a class. *)
Definition lstrip_of (f : ascii -> bool) (s : str) : str := dropwhile f s.

Definition rstrip_of (f : ascii -> bool) (s : str) : str :=
  rev (dropwhile f (rev s)).

(** [s.strip()] *)
Definition strip (s : str) : str := rstrip_of isspace (lstrip_of isspace s).

(** [s.startswith(p)] *)
Fixpoint startswith (p s : str) : bool :=
  match p, s with
  | [], _ => true
  | x :: p', y :: s' => Ascii.eqb x y && startswith p' s'
  | _ :: _, [] => false
  end.

(** [sub in s] *)
Fixpoint contains (sub s : str) : bool :=
  startswith sub s ||
  match s with
  | [] => false
  | _ :: s' => contains sub s'
  end.

(** [s.find(c)] for a one-character [c]; [None] stands for [-1]. *)
Fixpoint find_chr (c : ascii) (s : str) : option nat :=
  match s with
  | [] => None
  | x :: s' => if Ascii.eqb x c then Some 0
               else option_map S (find_chr c s')
  end.

Fixpoint remove_from (old : str) (s : str) (skip : nat) : str :=
  match s with
  | [] => []
  | c :: s' =>
      match skip with
      | S k => remove_from old s' k
      | 0 => if startswith old s
             then remove_from old s' (length old - 1)
             else c :: remove_from old s' 0
      end
  end.

(** [s.replace(old, '')] for a non-empty [old]: the occurrences of [old]
    are removed from left to right, without overlap. *)
Definition remove (old s : str) : str := remove_from old s 0.

(** [s.split(c)] for a one-character separator [c]. *)
Fixpoint split (c : ascii) (s : str) : list str :=
  match s with
  | [] => [[]]
  | x :: s' =>
      if Ascii.eqb x c then [] :: split c s'
      else match split c s' with
           | h :: t => (x :: h) :: t
           | [] => [[x]]
           end
  end.

(** [sep.join(parts)] *)
Fixpoint join (sep : str) (parts : list str) : str :=
  match parts with
  | [] => []
  | [p] => p
  | p :: rest => p ++ sep ++ join sep rest
  end.

(** [str(n)] for a non-negative [int]. *)
Definition str_of_nat (n : nat) : str :=
  String.list_ascii_of_string
    (DecimalString.NilEmpty.string_of_uint (Nat.to_uint n)).

Fixpoint int_of_nat (n : nat) : int :=
  match n with
  | 0 => 0%uint63
  | S k => PrimInt63.add (int_of_nat k) 1%uint63
  end.

(** [float(n)] for a small non-negative [int] (exact below 2^53). *)
Definition float_of_nat (n : nat) : float := PrimFloat.of_uint63 (int_of_nat n).

(** The two-argument [min] and [max]: the first argument is kept unless the
    second is strictly smaller (resp. larger). *)
Definition min (a b : float) : float := if PrimFloat.ltb b a then b else a.
Definition max (a b : float) : float := if PrimFloat.ltb a b then b else a.

(** [a >= b] on floats. *)
Definition geb (a b : float) : bool := PrimFloat.leb b a.

(** ** Exceptions *)

Inductive exn := AttributeError | TypeError | ValueError.

(** The outcome of a call: a value, a raised exception, or [Unmodelled]
    when the input leaves the domain of the embedding (a non-string where
    the program formats or parses a string). *)
Inductive result (A : Type) :=
| Ok (a : A)
| Raise (e : exn)
| Unmodelled.
Arguments Ok {A} a.
Arguments Raise {A} e.
Arguments Unmodelled {A}.

Definition bind {A B} (m : result A) (k : A -> result B) : result B :=
  match m with
  | Ok a => k a
  | Raise e => Raise e
  | Unmodelled => Unmodelled
  end.

(** [for x in xs: body(x)] threading the state [st]; a raise in the body
    ends the loop. *)
Fixpoint for_each {A S} (xs : list A) (body : A -> S -> result S) (st : S)
  : result S :=
  match xs with
  | [] => Ok st
  | x :: xs' => bind (body x st) (for_each xs' body)
  end.

End Py.

Notation "x <- m ;; k" := (Py.bind m (fun x => k))
  (at level 61, m at next level, right associativity).

Import Py.

(** ** Regular expressions

    The fragment of Python's [re] that the program uses, with the matching
    order of a backtracking engine: [ends r p] lists the positions where a
    match of [r] started at [p] can end, the engine's first choice first
    (greedy repetition, left alternative before right). *)

Module Re.

(** A position in the scanned text: the character just before it, if any,
    and the text still to be read. *)
Definition pos : Type := option ascii * str.

Inductive regex :=
| Eps
| Chr (f : ascii -> bool)
| Seq (r1 r2 : regex)
| Alt (r1 r2 : regex)
| Star (r : regex)
| Eol
| WordB.

(** [r+] *)
Definition Plus (r : regex) : regex := Seq r (Star r).

(** [r{n,}] *)
Fixpoint AtLeast (n : nat) (r : regex) : regex :=
  match n with
  | 0 => Star r
  | S k => Seq r (AtLeast k r)
  end.

(** Concatenation of a sequence of items. *)
Definition Cat (rs : list regex) : regex := fold_right Seq Eps rs.

(** [$]: the end of the text, or just before a newline that ends the text. *)
Definition at_eol (p : pos) : bool :=
  match snd p with
  | [] => true
  | [c] => code_is 10 c
  | _ => false
  end.

(** [\b]: exactly one of the two neighbours is a word character. *)
Definition at_word_boundary (p : pos) : bool :=
  let before := match fst p with Some c => isword c | None => false end in
  let after := match snd p with c :: _ => isword c | [] => false end in
  xorb before after.

(** Greedy repetition of [step]: one more round first, stopping last; a round
    that reads nothing is not repeated.  [n] bounds the number of rounds. *)
Fixpoint iterate (step : pos -> list pos) (n : nat) (p : pos) : list pos :=
  match n with
  | 0 => [p]
  | S n' =>
      flat_map
        (fun q => if length (snd q) <? length (snd p)
                  then iterate step n' q else [])
        (step p)
      ++ [p]
  end.

Fixpoint ends (r : regex) (p : pos) : list pos :=
  match r with
  | Eps => [p]
  | Chr f =>
      match snd p with
      | c :: s' => if f c then [(Some c, s')] else []
      | [] => []
      end
  | Seq r1 r2 => flat_map (ends r2) (ends r1 p)
  | Alt r1 r2 => ends r1 p ++ ends r2 p
  | Star r1 => iterate (ends r1) (length (snd p)) p
  | Eol => if at_eol p then [p] else []
  | WordB => if at_word_boundary p then [p] else []
  end.

(** The match the engine reports at [p], if any: its end position. *)
Definition match_at (r : regex) (p : pos) : option pos := hd_error (ends r p).

(** The text left to read after the first of the positions [l]. *)
Definition rest_after (l : list pos) : option str :=
  option_map snd (hd_error l).

(** The ends of a greedy repetition of the class [f]: after the longest run
    of [f] first, then after each shorter one, down to the start. *)
Fixpoint star_chr (f : ascii -> bool) (prev : option ascii) (s : str)
  : list pos :=
  match s with
  | c :: s' =>
      if f c then star_chr f (Some c) s' ++ [(prev, s)] else [(prev, s)]
  | [] => [(prev, [])]
  end.

(** [re.sub(r, '', s)] for a pattern [r] that matches no empty text: the scan
    goes left to right; at a position where [r] matches, the matched text is
    dropped ([skip] counts what is left of it) and the scan resumes after
    it; elsewhere the character is kept. *)
Fixpoint sub_scan (r : regex) (prev : option ascii) (s : str) (skip : nat)
  : str :=
  match s with
  | [] => []
  | c :: s' =>
      match skip with
      | S k => sub_scan r (Some c) s' k
      | 0 =>
          match match_at r (prev, s) with
          | Some q =>
              match length s - length (snd q) with
              | S k => sub_scan r (Some c) s' k
              | 0 => c :: sub_scan r (Some c) s' 0
              end
          | None => c :: sub_scan r (Some c) s' 0
          end
      end
  end.

Definition sub_empty (r : regex) (s : str) : str := sub_scan r None s 0.

(** [re.findall(r, s)] for a pattern without groups that matches no empty
    text: the matched texts, left to right, without overlap. *)
Fixpoint findall_scan (r : regex) (prev : option ascii) (s : str) (skip : nat)
  : list str :=
  match s with
  | [] => []
  | c :: s' =>
      match skip with
      | S k => findall_scan r (Some c) s' k
      | 0 =>
          match match_at r (prev, s) with
          | Some q =>
              match length s - length (snd q) with
              | S k => firstn (S k) s :: findall_scan r (Some c) s' k
              | 0 => findall_scan r (Some c) s' 0
              end
          | None => findall_scan r (Some c) s' 0
          end
      end
  end.

Definition findall (r : regex) (s : str) : list str := findall_scan r None s 0.

End Re.

(** ** Values read from the bookmarks file

    What [json.load] returns: [None], a [bool], a number, a [str], a [list]
    or a [dict]; a [dict] keeps its items in insertion order, under distinct
    keys. *)

Inductive json :=
| JNull
| JBool (b : bool)
| JInt (n : Z)
| JFloat (x : float)
| JString (s : str)
| JList (l : list json)
| JDict (items : list (str * json)).

Module Json.

(** [d[k]] on the items of a [dict], when the key is present. *)
Fixpoint lookup (items : list (str * json)) (k : str) : option json :=
  match items with
  | [] => None
  | (k', v) :: rest => if str_eqb k' k then Some v else lookup rest k
  end.

(** [node.get(k, default)]: only a [dict] has the method. *)
Definition get (node : json) (k : str) (default : json) : result json :=
  match node with
  | JDict items =>
      Ok (match lookup items k with Some v => v | None => default end)
  | _ => Raise AttributeError
  end.

(** [node.items()] *)
Definition items (node : json) : result (list (str * json)) :=
  match node with
  | JDict l => Ok l
  | _ => Raise AttributeError
  end.

(** [for child in v]: a [list] yields its elements, a [dict] its keys, a
    [str] its characters; the other values are not iterable. *)
Definition iter (v : json) : result (list json) :=
  match v with
  | JList l => Ok l
  | JDict l => Ok (map (fun kv => JString (fst kv)) l)
  | JString s => Ok (map (fun c => JString [c]) s)
  | _ => Raise TypeError
  end.

(** [v == 'text'] *)
Definition eq_str (v : json) (s : str) : bool :=
  match v with
  | JString s' => str_eqb s' s
  | _ => false
  end.

(** A value used where the program needs text (a title, a URL, a folder
    name): the embedding covers strings only. *)
Definition as_str (v : json) : result str :=
  match v with
  | JString s => Ok s
  | _ => Unmodelled
  end.

Fixpoint list_max (l : list nat) : nat :=
  match l with
  | [] => 0
  | n :: l' => Nat.max n (list_max l')
  end.

(** Nesting depth: the number of calls of a recursive descent that looks
    into every container. *)
Fixpoint depth (v : json) : nat :=
  match v with
  | JList l => S (list_max (map depth l))
  | JDict l => S (list_max (map (fun kv => depth (snd kv)) l))
  | _ => 1
  end.

End Json.

(** ** What the program takes from the interpreter's library *)

(** [urlparse(url).netloc]: the network location of a URL, or the
    [ValueError] that [urlparse] raises on a URL it rejects. *)
Class UrlLib := { urlparse_netloc : str -> result str }.

(** [list(set(xs))]: the distinct elements of [xs], in the iteration order
    of the interpreter's hash set.  The order follows the hash values of the
    strings, which the interpreter salts anew in every process; the program
    can rely on the elements only. *)
Class SetOrder := {
  list_of_set : list str -> list str;
  list_of_set_nodup : forall l, NoDup (list_of_set l);
  list_of_set_elems : forall l x, In x (list_of_set l) <-> In x l
}.

(** The network location as [urllib.parse.urlsplit] computes it.  For a host
    in balanced square brackets the validation of the bracketed address is
    the argument [check_bracketed_netloc] (it came with later versions of
    the library).  The compatibility check on non-ASCII hosts never fires on
    code points below 256 and is left out. *)
Module UrlSplit.

Definition c0_control_or_space (c : ascii) : bool := (code c <=? 32)%N.

Definition unsafe_to_remove (c : ascii) : bool :=
  code_is 9 c || code_is 13 c || code_is 10 c.

Definition scheme_chars (c : ascii) : bool :=
  between 97 122 c || between 65 90 c || between 48 57 c
  || code_is 43 c || code_is 45 c || code_is 46 c.

(** One of [/], [?] and [#]. *)
Definition netloc_delim (c : ascii) : bool :=
  code_is 47 c || code_is 63 c || code_is 35 c.

Fixpoint takewhile (f : ascii -> bool) (s : str) : str :=
  match s with
  | [] => []
  | c :: s' => if f c then c :: takewhile f s' else []
  end.

(** The text after the scheme and its colon, when the URL starts with a
    scheme. *)
Definition after_scheme (url : str) : str :=
  match find_chr ":"%char url, url with
  | Some (S i), c :: _ =>
      if isascii_alpha c && forallb scheme_chars (firstn (S i) url)
      then skipn (S (S i)) url
      else url
  | _, _ => url
  end.

Definition netloc (check_bracketed_netloc : str -> bool) (url : str)
  : result str :=
  let url := lstrip_of c0_control_or_space url in
  let url := filter (fun c => negb (unsafe_to_remove c)) url in
  let url := after_scheme url in
  if startswith "//" url then
    let netloc := takewhile (fun c => negb (netloc_delim c)) (skipn 2 url) in
    let has c := existsb (Ascii.eqb c) netloc in
    if (has "["%char && negb (has "]"%char))
       || (has "]"%char && negb (has "["%char))
    then Raise ValueError
    else if has "["%char && has "]"%char
         then if check_bracketed_netloc netloc then Ok netloc
              else Raise ValueError
         else Ok netloc
  else Ok [].

End UrlSplit.

(** ** [class Bookmark] *)

Module Bookmark.

Record t := {
  name : str;
  url : str;
  date_added : json;
  folder_path : str;
  domain : str;
  clean_name : str
}.

Definition is_separator (c : ascii) : bool := code_is 45 c || code_is 124 c.

Definition word_or_space (c : ascii) : bool := isword c || isspace c.

(** The pattern [\s*[-|]\s*[\w\s]+$]. *)
Definition suffix_pattern : Re.regex :=
  Re.Cat [Re.Star (Re.Chr isspace); Re.Chr is_separator;
          Re.Star (Re.Chr isspace); Re.Plus (Re.Chr word_or_space); Re.Eol].

Definition _clean_name (name : str) : str :=
  let cleaned := Re.sub_empty suffix_pattern name in
  match strip cleaned with
  | [] => name
  | stripped => stripped
  end.

(** The constructor of the dataclass followed by [__post_init__]. *)
Definition new `{UrlLib} (name url : str) (date_added : json)
  (folder_path : str) : result t :=
  domain <- urlparse_netloc url ;;
  Ok {| name := name; url := url; date_added := date_added;
        folder_path := folder_path; domain := domain;
        clean_name := _clean_name name |}.

End Bookmark.

(** ** [class ProjectIdea] *)

Module ProjectIdea.

Record t := {
  title : str;
  url : str;
  category : str;
  concepts : list str;
  buildable_score : float;
  weekend_feasible : bool;
  reasoning : str;
  source_bookmark : str
}.

End ProjectIdea.

(** ** [class BookmarkParser] *)

Module BookmarkParser.

Section Parser.
Context `{UrlLib}.

(** The inner function [traverse] of [parse_chrome]; the list [bookmarks] it
    appends to is passed along.  [fuel] bounds the depth of the recursion;
    [parse_chrome] gives the nesting depth of the file, which is never used
    up. *)
Fixpoint traverse (fuel : nat) (node : json) (path : str)
  (bookmarks : list Bookmark.t) : result (list Bookmark.t) :=
  match fuel with
  | 0 => Unmodelled
  | S fuel' =>
      type <- Json.get node "type" JNull ;;
      if Json.eq_str type "url" then
        name <- Json.get node "name" (JString "Untitled") ;;
        url <- Json.get node "url" (JString "") ;;
        date_added <- Json.get node "date_added" JNull ;;
        name <- Json.as_str name ;;
        url <- Json.as_str url ;;
        bm <- Bookmark.new name url date_added path ;;
        Ok (bookmarks ++ [bm])
      else if Json.eq_str type "folder" then
        folder_name <- Json.get node "name" (JString "Unnamed") ;;
        folder_name <- Json.as_str folder_name ;;
        let new_path :=
          match path with
          | [] => folder_name
          | _ => path ++ "/" ++ folder_name
          end in
        children <- Json.get node "children" (JList []) ;;
        children <- Json.iter children ;;
        for_each children
          (fun child bookmarks => traverse fuel' child new_path bookmarks)
          bookmarks
      else Ok bookmarks
  end.

Definition allowed_roots : list str := ["bookmark_bar"; "other"; "synced"].

(** [parse_chrome] from the value [data] that [json.load] returned. *)
Definition parse_chrome (data : json) : result (list Bookmark.t) :=
  roots <- Json.get data "roots" (JDict []) ;;
  roots <- Json.items roots ;;
  for_each roots
    (fun '(root_name, root_node) bookmarks =>
       if existsb (str_eqb root_name) allowed_roots
       then traverse (Json.depth data) root_node root_name bookmarks
       else Ok bookmarks)
    [].

End Parser.

End BookmarkParser.

(** ** [class ProjectAnalyzer] *)

Module ProjectAnalyzer.

Definition CATEGORIES : list (str * list str) :=
  [ ("tools", ["tool"; "editor"; "IDE"; "cli"; "terminal"; "utility"; "app";
               "software"]);
    ("saas", ["dashboard"; "platform"; "service"; "api"; "cloud"; "app";
              "automation"]);
    ("games", ["game"; "unity"; "unreal"; "godot"; "phaser"; "pygame";
               "engine"]);
    ("hardware", ["arduino"; "raspberry"; "pi"; "iot"; "sensor"; "esp32";
                  "microcontroller"]);
    ("web", ["html"; "css"; "javascript"; "react"; "vue"; "svelte";
             "frontend"; "backend"]);
    ("ai_ml", ["ai"; "ml"; "machine learning"; "neural"; "gpt"; "llm";
               "model"; "tensorflow"]);
    ("data", ["database"; "sql"; "nosql"; "analytics"; "visualization";
              "dashboard"]);
    ("creative", ["design"; "art"; "music"; "video"; "generator"; "creator"]);
    ("dev_ops", ["docker"; "kubernetes"; "ci/cd"; "deploy"; "infrastructure";
                 "monitoring"]);
    ("mobile", ["ios"; "android"; "mobile"; "app"; "flutter";
                "react native"]) ].

Definition EASY_INDICATORS : list str :=
  ["cli"; "script"; "bot"; "scraper"; "parser"; "converter"; "simple";
   "basic"].

Definition HARD_INDICATORS : list str :=
  ["platform"; "enterprise"; "scale"; "infrastructure"; "distributed";
   "complex"].

(** [sum(1 for x in xs if f(x))] *)
Definition count {A} (f : A -> bool) (xs : list A) : nat :=
  length (filter f xs).

(** [max(xs, key=key)] on a non-empty sequence [first :: rest]: the first of
    the elements with the largest key. *)
Definition max_by_key {A} (key : A -> nat) (first : A) (rest : list A) : A :=
  fold_left (fun best x => if key best <? key x then x else best) rest first.

(** The [score] of one category on the search text. *)
Definition keyword_score (text : str) (keywords : list str) : nat :=
  count (fun kw => contains (lower kw) text) keywords.

Definition search_text (bookmark : Bookmark.t) : str :=
  lower (Bookmark.name bookmark ++ " " ++ Bookmark.url bookmark ++ " "
         ++ Bookmark.domain bookmark).

Definition categorize (bookmark : Bookmark.t) : str :=
  let text := search_text bookmark in
  let scores :=
    fold_left
      (fun scores '(category, keywords) =>
         let score := keyword_score text keywords in
         if 0 <? score then scores ++ [(category, score)] else scores)
      CATEGORIES [] in
  match scores with
  | [] => "other"
  | first :: rest => fst (max_by_key snd first rest)
  end.

(** The pattern [\b[A-Z][a-z]+\b|\b[a-z]{4,}\b]. *)
Definition words_pattern : Re.regex :=
  Re.Alt
    (Re.Cat [Re.WordB; Re.Chr (between 65 90);
             Re.Plus (Re.Chr (between 97 122)); Re.WordB])
    (Re.Cat [Re.WordB; Re.AtLeast 4 (Re.Chr (between 97 122)); Re.WordB]).

Definition extract_concepts `{SetOrder} (bookmark : Bookmark.t) : list str :=
  let concepts := [] in
  let words := Re.findall words_pattern (Bookmark.clean_name bookmark) in
  let concepts := concepts ++ firstn 5 words in
  let domain_parts := split "."%char (remove "www." (Bookmark.domain bookmark)) in
  let concepts :=
    match domain_parts with
    | part :: _ => concepts ++ [part]
    | [] => concepts
    end in
  let concepts :=
    list_of_set (map lower (filter (fun c => 3 <? length c) concepts)) in
  firstn 8 concepts.

Definition calculate_buildability (bookmark : Bookmark.t) (category : str)
  : float * str :=
  let text := lower (Bookmark.name bookmark ++ " " ++ Bookmark.url bookmark) in
  let score := 0.5%float in
  let reasons : list str := [] in
  let easy_count := count (fun ind => contains ind text) EASY_INDICATORS in
  let '(score, reasons) :=
    if 0 <? easy_count
    then ((score + 0.1 * float_of_nat easy_count)%float,
          reasons ++ ["Contains " ++ str_of_nat easy_count
                      ++ " easy-build indicators"])
    else (score, reasons) in
  let hard_count := count (fun ind => contains ind text) HARD_INDICATORS in
  let '(score, reasons) :=
    if 0 <? hard_count
    then ((score - 0.15 * float_of_nat hard_count)%float,
          reasons ++ ["Contains " ++ str_of_nat hard_count
                      ++ " complex indicators"])
    else (score, reasons) in
  let '(score, reasons) :=
    if existsb (str_eqb category) ["tools"; "cli"; "web"]
    then ((score + 0.15)%float, reasons ++ ["Category is weekend-friendly"])
    else if existsb (str_eqb category) ["hardware"; "infrastructure"; "platform"]
    then ((score - 0.2)%float,
          reasons ++ ["Category typically requires more time"])
    else (score, reasons) in
  let '(score, reasons) :=
    if contains "github.com" (Bookmark.url bookmark)
    then ((score + 0.1)%float,
          reasons ++ ["GitHub project (likely has code reference)"])
    else (score, reasons) in
  let score := Py.max 0.0%float (Py.min 1.0%float score) in
  let reasoning :=
    match reasons with
    | [] => "Standard project complexity"
    | _ => join "; " reasons
    end in
  (score, reasoning).

(** [ideas.sort(key=lambda x: x.buildable_score, reverse=True)]: the sort is
    stable, also under [reverse=True]; an idea is placed before the first
    idea whose score is not strictly larger than its own. *)
Fixpoint insert_desc (x : ProjectIdea.t) (sorted : list ProjectIdea.t)
  : list ProjectIdea.t :=
  match sorted with
  | [] => [x]
  | y :: rest =>
      if PrimFloat.ltb (ProjectIdea.buildable_score x)
                       (ProjectIdea.buildable_score y)
      then y :: insert_desc x rest
      else x :: sorted
  end.

Definition sort_desc (ideas : list ProjectIdea.t) : list ProjectIdea.t :=
  fold_right insert_desc [] ideas.

Definition analyze `{SetOrder} (bookmarks : list Bookmark.t)
  (buildable_only : bool) : list ProjectIdea.t :=
  let ideas :=
    fold_left
      (fun ideas bm =>
         let category := categorize bm in
         let concepts := extract_concepts bm in
         let '(score, reasoning) := calculate_buildability bm category in
         let weekend_feasible := geb score 0.6%float in
         if buildable_only && negb weekend_feasible then ideas
         else ideas ++ [ {| ProjectIdea.title := Bookmark.clean_name bm;
                            ProjectIdea.url := Bookmark.url bm;
                            ProjectIdea.category := category;
                            ProjectIdea.concepts := concepts;
                            ProjectIdea.buildable_score := score;
                            ProjectIdea.weekend_feasible := weekend_feasible;
                            ProjectIdea.reasoning := reasoning;
                            ProjectIdea.source_bookmark := Bookmark.name bm |} ])
      bookmarks [] in
  sort_desc ideas.

End ProjectAnalyzer.

(** ** The scoring model as a function of its four factors *)

Module Scoring.

Inductive category_class := Friendly | Demanding | Neutral.

Definition class_of (category : str) : category_class :=
  if existsb (str_eqb category) ["tools"; "cli"; "web"] then Friendly
  else if existsb (str_eqb category) ["hardware"; "infrastructure"; "platform"]
  then Demanding
  else Neutral.

(** The sum before clamping, the adjustments applied in the order of the
    source. *)
Definition additive_score (easy hard : nat) (cls : category_class)
  (github : bool) : float :=
  let s := 0.5%float in
  let s := if 0 <? easy then (s + 0.1 * float_of_nat easy)%float else s in
  let s := if 0 <? hard then (s - 0.15 * float_of_nat hard)%float else s in
  let s := match cls with
           | Friendly => (s + 0.15)%float
           | Demanding => (s - 0.2)%float
           | Neutral => s
           end in
  if github then (s + 0.1)%float else s.

Definition github_note : str := "GitHub project (likely has code reference)".

Definition notes (easy hard : nat) (cls : category_class) (github : bool)
  : list str :=
  (if 0 <? easy
   then ["Contains " ++ str_of_nat easy ++ " easy-build indicators"] else [])
  ++ (if 0 <? hard
      then ["Contains " ++ str_of_nat hard ++ " complex indicators"] else [])
  ++ match cls with
     | Friendly => ["Category is weekend-friendly"]
     | Demanding => ["Category typically requires more time"]
     | Neutral => []
     end
  ++ (if github then [github_note] else []).

Definition clamp (score : float) : float :=
  Py.max 0.0%float (Py.min 1.0%float score).

Definition reasoning_of (reasons : list str) : str :=
  match reasons with
  | [] => "Standard project complexity"
  | _ => join "; " reasons
  end.

Definition in_unit_interval (x : float) : bool :=
  PrimFloat.leb 0.0%float x && PrimFloat.leb x 1.0%float.

Definition all_classes : list category_class := [Friendly; Demanding; Neutral].

(** Every combination of at most [e] easy and [h] hard indicators. *)
Definition combinations (e h : nat)
  : list (nat * nat * category_class * bool) :=
  flat_map (fun easy =>
    flat_map (fun hard =>
      flat_map (fun cls => [(easy, hard, cls, true); (easy, hard, cls, false)])
               all_classes)
      (seq 0 (S h)))
    (seq 0 (S e)).

End Scoring.

(** ** The suffix stripping of [_clean_name], in the words of its description *)

Module SuffixSpec.

(** The text before and after the last separator character of [s]. *)
Fixpoint split_last_separator (s : str) : option (str * str) :=
  match s with
  | [] => None
  | c :: s' =>
      match split_last_separator s' with
      | Some (before, after) => Some (c :: before, after)
      | None => if Bookmark.is_separator c then Some ([], s') else None
      end
  end.

(** A trailing text that the pattern accepts after the separator: not empty,
    word and whitespace characters only. *)
Definition trailing_words (s : str) : bool :=
  match s with
  | [] => false
  | _ => forallb Bookmark.word_or_space s
  end.

(** One suffix is removed: the last separator with the whitespace before it
    and the trailing words after it. *)
Definition strip_one_suffix (name : str) : str :=
  match split_last_separator name with
  | Some (before, after) =>
      if trailing_words after then rstrip_of isspace before else name
  | None => name
  end.

Definition clean_name (name : str) : str :=
  match strip (strip_one_suffix name) with
  | [] => name
  | stripped => stripped
  end.

(** A match of the pattern starts at the beginning of [s]. *)
Fixpoint matches_here (s : str) : bool :=
  match s with
  | [] => false
  | c :: s' =>
      if isspace c then matches_here s'
      else if Bookmark.is_separator c then trailing_words s'
      else false
  end.

(** The text up to the leftmost match. *)
Fixpoint cut (s : str) : str :=
  match s with
  | [] => []
  | c :: s' => if matches_here s then [] else c :: cut s'
  end.

End SuffixSpec.

(** ** The folder tree as the extraction reads it *)

Module TreeSpec.

Section Tree.
Context `{UrlLib}.

(** The text stored under [k], [default] when the key is missing. *)
Definition field (items : list (str * json)) (k default : str) : str :=
  match Json.lookup items k with
  | Some (JString s) => s
  | _ => default
  end.

Definition text_or_missing (items : list (str * json)) (k : str) : bool :=
  match Json.lookup items k with
  | None | Some (JString _) => true
  | Some _ => false
  end.

(** The node is an object whose [type] is [k]. *)
Definition is_kind (k : str) (node : json) : bool :=
  match node with
  | JDict items =>
      match Json.lookup items "type" with
      | Some v => Json.eq_str v k
      | None => false
      end
  | _ => false
  end.

Definition children (node : json) : list json :=
  match node with
  | JDict items =>
      match Json.lookup items "children" with
      | Some (JList l) => l
      | _ => []
      end
  | _ => []
  end.

Definition folder_name (node : json) : str :=
  match node with
  | JDict items => field items "name" "Unnamed"
  | _ => "Unnamed"
  end.

Definition child_path (path : str) (node : json) : str :=
  match path with
  | [] => folder_name node
  | _ => path ++ "/" ++ folder_name node
  end.

(** The leaves below [node] with their folder paths, in pre-order: a leaf is
    a node of kind [url]; a folder gives the leaves of its children, in
    order; a node of any other kind gives none and is not looked into. *)
Fixpoint leaves (fuel : nat) (node : json) (path : str)
  : list (json * str) :=
  match fuel with
  | 0 => []
  | S fuel' =>
      if is_kind "url" node then [(node, path)]
      else if is_kind "folder" node
      then flat_map (fun child => leaves fuel' child (child_path path node))
                    (children node)
      else []
  end.

(** A well-formed tree: every node is an object; titles, URLs and folder
    names are text when present; the children of a folder, when present, are
    a list of well-formed trees. *)
Fixpoint well_formed (fuel : nat) (node : json) : bool :=
  match fuel with
  | 0 => false
  | S fuel' =>
      match node with
      | JDict items =>
          if is_kind "url" node
          then text_or_missing items "name" && text_or_missing items "url"
          else if is_kind "folder" node
          then text_or_missing items "name"
               && match Json.lookup items "children" with
                  | None => true
                  | Some (JList l) => forallb (well_formed fuel') l
                  | Some _ => false
                  end
          else true
      | _ => false
      end
  end.

Definition allowed (root_name : str) : bool :=
  existsb (str_eqb root_name) BookmarkParser.allowed_roots.

(** The roots on the allow-list, in the order of the file. *)
Definition allowed_root_nodes (data : json) : list (str * json) :=
  match data with
  | JDict items =>
      match Json.lookup items "roots" with
      | Some (JDict roots) => filter (fun kv => allowed (fst kv)) roots
      | _ => []
      end
  | _ => []
  end.

(** A valid input: an object whose [roots], when present, is an object, the
    roots on the allow-list being well-formed trees.  Nothing is asked of the
    other roots. *)
Definition valid_tree (data : json) : bool :=
  match data with
  | JDict items =>
      match Json.lookup items "roots" with
      | None => true
      | Some (JDict _) =>
          forallb (fun kv => well_formed (Json.depth data) (snd kv))
                  (allowed_root_nodes data)
      | Some _ => false
      end
  | _ => false
  end.

Definition reachable_leaves (data : json) : list (json * str) :=
  flat_map (fun kv => leaves (Json.depth data) (snd kv) (fst kv))
           (allowed_root_nodes data).

(** The record of a leaf found under the folder path [path]. *)
Definition record_of (leaf : json * str) : result Bookmark.t :=
  match fst leaf with
  | JDict items =>
      Bookmark.new (field items "name" "Untitled") (field items "url" "")
        (match Json.lookup items "date_added" with
         | Some v => v
         | None => JNull
         end)
        (snd leaf)
  | _ => Unmodelled
  end.

(** The URL library accepts the URL of every reachable leaf. *)
Definition urls_accepted (data : json) : bool :=
  forallb (fun leaf => match record_of leaf with Ok _ => true | _ => false end)
          (reachable_leaves data).

End Tree.

End TreeSpec.

(** ** Instances used in the examples *)

(** The URL library with no validation inside square brackets. *)
Definition plain_urllib : UrlLib :=
  {| urlparse_netloc := UrlSplit.netloc (fun _ => true) |}.

Definition str_eq_dec : forall a b : str, {a = b} + {a <> b} :=
  list_eq_dec ascii_dec.

(** Two iteration orders a hash set can have. *)
Definition set_order_a : SetOrder :=
  {| list_of_set := nodup str_eq_dec;
     list_of_set_nodup := NoDup_nodup str_eq_dec;
     list_of_set_elems := fun l x => nodup_In str_eq_dec l x |}.

Definition set_order_b : SetOrder :=
  {| list_of_set := fun l => rev (nodup str_eq_dec l);
     list_of_set_nodup := fun l => NoDup_rev (NoDup_nodup str_eq_dec l);
     list_of_set_elems := fun l x =>
       iff_trans (iff_sym (in_rev (nodup str_eq_dec l) x))
                 (nodup_In str_eq_dec l x) |}.

(** ** Inputs of the examples *)

Definition awesome_cli_tool : result Bookmark.t :=
  @Bookmark.new plain_urllib "Awesome CLI Tool - GitHub"
    "https://github.com/foo/bar" JNull "".

Definition github_in_path : result Bookmark.t :=
  @Bookmark.new plain_urllib "Example" "https://example.com/github.com"
    JNull "".

Definition idea_summary (idea : ProjectIdea.t) : str * str * float * bool :=
  (ProjectIdea.title idea, ProjectIdea.category idea,
   ProjectIdea.buildable_score idea, ProjectIdea.weekend_feasible idea).

Definition url_node (name url : str) : json :=
  JDict [("type", JString "url"); ("name", JString name);
         ("url", JString url); ("date_added", JString "13350000000000000")].

Definition folder_node (name : str) (children : list json) : json :=
  JDict [("type", JString "folder"); ("name", JString name);
         ("children", JList children)].

(** A file with two folders, a node of an unknown kind, a leaf without a
    title, and a root that is not on the allow-list and is no tree at all. *)
Definition sample_tree : json :=
  JDict
    [("checksum", JString "0c1d");
     ("roots",
      JDict
        [("bookmark_bar",
          folder_node "Bookmarks bar"
            [url_node "Rocq" "https://rocq-prover.org/";
             folder_node "Dev"
               [url_node "Awesome CLI Tool - GitHub"
                  "https://github.com/foo/bar";
                JDict [("type", JString "separator")]];
             url_node "News" "https://news.example.org/today"]);
         ("trash", JList [JString "junk"]);
         ("other", folder_node "Other bookmarks" []);
         ("synced",
          JDict [("type", JString "url");
                 ("url", JString "https://example.com/")])]);
     ("version", JInt 1)].

(** A well-formed tree with one leaf, whose URL [urlparse] rejects. *)
Definition bad_url_tree : json :=
  JDict
    [("roots",
      JDict [("bookmark_bar", folder_node "Bookmarks bar"
                                [url_node "Broken" "http://["])])].

(** A well-formed tree with one leaf, whose title is the empty string. *)
Definition empty_name_tree : json :=
  JDict
    [("roots",
      JDict [("bookmark_bar", folder_node "Bookmarks bar"
                                [url_node "" "https://example.com/"])])].

(** The fields of a leaf whose title is the empty string. *)
Definition empty_title_leaf : list (str * json) :=
  [("type", JString "url"); ("name", JString "");
   ("url", JString "https://example.com/")].

(** The same bookmark found in two places, at two dates, and a second one. *)
Definition two_bookmarks_a : list Bookmark.t :=
  [ {| Bookmark.name := "Awesome CLI Tool - GitHub";
       Bookmark.url := "https://github.com/foo/bar";
       Bookmark.date_added := JString "13350000000000000";
       Bookmark.folder_path := "bookmark_bar/Dev";
       Bookmark.domain := "github.com";
       Bookmark.clean_name := "Awesome CLI Tool" |};
    {| Bookmark.name := "Distributed Infrastructure Platform";
       Bookmark.url := "https://example.com";
       Bookmark.date_added := JNull;
       Bookmark.folder_path := "other";
       Bookmark.domain := "example.com";
       Bookmark.clean_name := "Distributed Infrastructure Platform" |} ].

Definition two_bookmarks_b : list Bookmark.t :=
  [ {| Bookmark.name := "Awesome CLI Tool - GitHub";
       Bookmark.url := "https://github.com/foo/bar";
       Bookmark.date_added := JString "13360000000000000";
       Bookmark.folder_path := "synced/Mobile bookmarks";
       Bookmark.domain := "github.com";
       Bookmark.clean_name := "Awesome CLI Tool" |};
    {| Bookmark.name := "Distributed Infrastructure Platform";
       Bookmark.url := "https://example.com";
       Bookmark.date_added := JString "1";
       Bookmark.folder_path := "";
       Bookmark.domain := "example.com";
       Bookmark.clean_name := "Distributed Infrastructure Platform" |} ].

(** Two bookmarks built from the same title and URL. *)
Definition same_source `{UrlLib} (b1 b2 : Bookmark.t) : Prop :=
  exists name url date1 path1 date2 path2,
    Bookmark.new name url date1 path1 = Ok b1
    /\ Bookmark.new name url date2 path2 = Ok b2.

(** Two bookmarks with the same text: title, URL and what is derived from
    them. *)
Definition same_text (b1 b2 : Bookmark.t) : Prop :=
  Bookmark.name b1 = Bookmark.name b2
  /\ Bookmark.url b1 = Bookmark.url b2
  /\ Bookmark.domain b1 = Bookmark.domain b2
  /\ Bookmark.clean_name b1 = Bookmark.clean_name b2.

(** ** The ranking of [analyze], in parts *)

Module Ranking.

(** The idea that the loop of [analyze] builds for one bookmark. *)
Definition idea_of `{SetOrder} (bm : Bookmark.t) : ProjectIdea.t :=
  let category := ProjectAnalyzer.categorize bm in
  let concepts := ProjectAnalyzer.extract_concepts bm in
  let '(score, reasoning) :=
    ProjectAnalyzer.calculate_buildability bm category in
  {| ProjectIdea.title := Bookmark.clean_name bm;
     ProjectIdea.url := Bookmark.url bm;
     ProjectIdea.category := category;
     ProjectIdea.concepts := concepts;
     ProjectIdea.buildable_score := score;
     ProjectIdea.weekend_feasible := geb score 0.6%float;
     ProjectIdea.reasoning := reasoning;
     ProjectIdea.source_bookmark := Bookmark.name bm |}.

(** The ideas that the loop keeps. *)
Definition kept (buildable_only : bool) (idea : ProjectIdea.t) : bool :=
  negb (buildable_only && negb (ProjectIdea.weekend_feasible idea)).

(** The list [ideas] when the loop ends, before it is sorted: the kept
    ideas in the order of the bookmarks. *)
Definition collected `{SetOrder} (bookmarks : list Bookmark.t)
  (buildable_only : bool) : list ProjectIdea.t :=
  filter (kept buildable_only) (map idea_of bookmarks).

(** The scores that the scoring model can give. *)
Definition producible_scores : list float :=
  map (fun '(easy, hard, cls, github) =>
         Scoring.clamp (Scoring.additive_score easy hard cls github))
      (Scoring.combinations 8 6).

(** The number of producible scores strictly below [x]. *)
Definition rank (x : float) : nat :=
  length (filter (fun s => PrimFloat.ltb s x) producible_scores).

Definition ranked_scores : list (float * nat) :=
  map (fun s => (s, rank s)) producible_scores.

(** The idea [x] is placed after [y]: its score is strictly smaller. *)
Definition below (x y : ProjectIdea.t) : bool :=
  PrimFloat.ltb (ProjectIdea.buildable_score x) (ProjectIdea.buildable_score y).

(** The two scores compare equal. *)
Definition same_score (v : float) (idea : ProjectIdea.t) : bool :=
  PrimFloat.eqb (ProjectIdea.buildable_score idea) v.

End Ranking.

(** ** Stable sorting by insertion

    [insert_by pass x sorted] moves [x] past the elements it has to follow;
    it stops at the first one it need not pass. *)

Fixpoint insert_by {A} (pass : A -> A -> bool) (x : A) (sorted : list A)
  : list A :=
  match sorted with
  | [] => [x]
  | y :: rest => if pass x y then y :: insert_by pass x rest else x :: sorted
  end.

Definition sort_by {A} (pass : A -> A -> bool) (l : list A) : list A :=
  fold_right (insert_by pass) [] l.

(** ** The summary numbers of [OutputFormatter] and [main] *)

Module Summary.

(** ['total_ideas'] of [to_json], the total of [to_markdown]. *)
Definition total_ideas (ideas : list ProjectIdea.t) : nat := length ideas.

(** ['weekend_feasible'] of [to_json] and the count of [to_markdown]:
    [sum(1 for i in ideas if i.weekend_feasible)]. *)
Definition weekend_feasible (ideas : list ProjectIdea.t) : nat :=
  ProjectAnalyzer.count ProjectIdea.weekend_feasible ideas.

(** [weekend_count] of [main]: with [--buildable] the number of ideas,
    otherwise the count of the feasible ones. *)
Definition weekend_count (buildable : bool) (ideas : list ProjectIdea.t)
  : nat :=
  if buildable then length ideas
  else ProjectAnalyzer.count ProjectIdea.weekend_feasible ideas.

End Summary.

(** Two bookmarks that differ in the case of their letters only, and the
    first of them as the scorer sees it. *)
Definition shouting_bookmark : Bookmark.t :=
  {| Bookmark.name := "AWESOME CLI TOOL";
     Bookmark.url := "HTTPS://EXAMPLE.COM/Tool";
     Bookmark.date_added := JNull;
     Bookmark.folder_path := "";
     Bookmark.domain := "EXAMPLE.COM";
     Bookmark.clean_name := "AWESOME CLI TOOL" |}.

Definition quiet_bookmark : Bookmark.t :=
  {| Bookmark.name := "awesome cli tool";
     Bookmark.url := "https://example.com/tool";
     Bookmark.date_added := JNull;
     Bookmark.folder_path := "";
     Bookmark.domain := "example.com";
     Bookmark.clean_name := "awesome cli tool" |}.


(** The sample file without what is off the allow-list, and its records. *)
Definition sample_tree_pruned : json :=
  JDict
    [("roots",
      JDict
        [("bookmark_bar",
          folder_node "Bookmarks bar"
            [url_node "Rocq" "https://rocq-prover.org/";
             folder_node "Dev"
               [url_node "Awesome CLI Tool - GitHub"
                  "https://github.com/foo/bar";
                JDict [("type", JString "separator")]];
             url_node "News" "https://news.example.org/today"]);
         ("other", folder_node "Other bookmarks" []);
         ("synced",
          JDict [("type", JString "url");
                 ("url", JString "https://example.com/")])])].


(** ** The factors of a bookmark *)

Module Factors.

(** [easy_count] and [hard_count] of [calculate_buildability]. *)
Definition easy_count (b : Bookmark.t) : nat :=
  ProjectAnalyzer.count
    (fun ind => contains ind
                  (lower (Bookmark.name b ++ " " ++ Bookmark.url b)))
    ProjectAnalyzer.EASY_INDICATORS.

Definition hard_count (b : Bookmark.t) : nat :=
  ProjectAnalyzer.count
    (fun ind => contains ind
                  (lower (Bookmark.name b ++ " " ++ Bookmark.url b)))
    ProjectAnalyzer.HARD_INDICATORS.

(** The category adjustment, from the penalty to the bonus. *)
Definition class_level (cls : Scoring.category_class) : nat :=
  match cls with
  | Scoring.Demanding => 0
  | Scoring.Neutral => 1
  | Scoring.Friendly => 2
  end.

(** The first combination of factors is at most as favourable as the
    second. *)
Definition at_most_as_favourable
  (x y : nat * nat * Scoring.category_class * bool) : bool :=
  let '(easy1, hard1, cls1, github1) := x in
  let '(easy2, hard2, cls2, github2) := y in
  (easy1 <=? easy2) && (hard2 <=? hard1)
  && (class_level cls1 <=? class_level cls2) && implb github1 github2.

Definition score_of (x : nat * nat * Scoring.category_class * bool) : float :=
  let '(easy, hard, cls, github) := x in
  Scoring.clamp (Scoring.additive_score easy hard cls github).

End Factors.

(** ** [OutputFormatter.to_markdown]: the sections of the report *)

Module Markdown.

(** [a < b] on [str]: by code points, from the left; a proper prefix comes
    first. *)
Fixpoint str_ltb (a b : str) : bool :=
  match a, b with
  | _, [] => false
  | [], _ :: _ => true
  | x :: a', y :: b' =>
      if (code x <? code y)%N then true
      else if (code y <? code x)%N then false
      else str_ltb a' b'
  end.

(** [d.setdefault(k, []).append(idea)] on a dictionary kept as the list of
    its items: the list under [k] gets the idea at its end; a new key goes
    last. *)
Fixpoint setdefault_append (d : list (str * list ProjectIdea.t)) (k : str)
  (idea : ProjectIdea.t) : list (str * list ProjectIdea.t) :=
  match d with
  | [] => [(k, [idea])]
  | (k', group) :: rest =>
      if str_eqb k' k then (k', group ++ [idea]) :: rest
      else (k', group) :: setdefault_append rest k idea
  end.

(** The dictionary [by_category] after the loop over the ideas. *)
Definition by_category (ideas : list ProjectIdea.t)
  : list (str * list ProjectIdea.t) :=
  fold_left
    (fun d idea => setdefault_append d (ProjectIdea.category idea) idea)
    ideas [].

(** [sorted(by_category.items())]: the items are pairs with distinct keys,
    so their order is the order of the keys; the sort is stable. *)
Definition sections (ideas : list ProjectIdea.t)
  : list (str * list ProjectIdea.t) :=
  sort_by (fun x y => str_ltb (fst y) (fst x)) (by_category ideas).

(** The ideas of the category [k]. *)
Definition of_category (k : str) (idea : ProjectIdea.t) : bool :=
  str_eqb (ProjectIdea.category idea) k.

End Markdown.

(** * Properties *)

Import ProjectAnalyzer.

(** ** The scoring model *)

Section ScoringFacts.
Import Scoring.

Lemma count_le_length {A} (f : A -> bool) (l : list A) : count f l <= length l.
Proof. unfold count. apply filter_length_le. Qed.

(** [calculate_buildability] computes the additive model on the number of
    easy and hard indicators found, the class of the category and the
    presence of [github.com] in the URL. *)
Lemma calculate_buildability_factors (b : Bookmark.t) (category : str) :
  let text := lower (Bookmark.name b ++ " " ++ Bookmark.url b) in
  let easy := count (fun ind => contains ind text) EASY_INDICATORS in
  let hard := count (fun ind => contains ind text) HARD_INDICATORS in
  let github := contains "github.com" (Bookmark.url b) in
  calculate_buildability b category
  = (clamp (additive_score easy hard (class_of category) github),
     reasoning_of (notes easy hard (class_of category) github)).
Proof.
  intros text easy hard github.
  unfold calculate_buildability, additive_score, notes, class_of.
  fold text. fold easy. fold hard. fold github.
  destruct (0 <? easy); destruct (0 <? hard);
    destruct (existsb (str_eqb category) ["tools"; "cli"; "web"]);
    destruct (existsb (str_eqb category)
                ["hardware"; "infrastructure"; "platform"]);
    destruct github; reflexivity.
Qed.

Lemma in_combinations (e h easy hard : nat) (cls : category_class)
  (github : bool) :
  easy <= e -> hard <= h -> In (easy, hard, cls, github) (combinations e h).
Proof.
  intros He Hh. unfold combinations.
  apply in_flat_map. exists easy. split; [apply in_seq; lia|].
  apply in_flat_map. exists hard. split; [apply in_seq; lia|].
  apply in_flat_map. exists cls. split.
  - destruct cls; simpl; auto.
  - destruct github; simpl; auto.
Qed.

Lemma clamped_scores_in_unit_interval :
  forallb (fun '(easy, hard, cls, github) =>
             in_unit_interval (clamp (additive_score easy hard cls github)))
          (combinations 8 6) = true.
Proof. vm_compute. reflexivity. Qed.

Lemma github_note_tracks_github :
  forallb (fun '(easy, hard, cls, github) =>
             Bool.eqb (contains github_note
                         (reasoning_of (notes easy hard cls github)))
                      github)
          (combinations 8 6) = true.
Proof. vm_compute. reflexivity. Qed.

End ScoringFacts.

(** C1: for every bookmark and every category, the score returned by
    [calculate_buildability] lies between 0.0 and 1.0, whatever the number of
    easy and hard indicators that match. *)
Theorem buildable_score_in_unit_interval (b : Bookmark.t) (category : str) :
  let score := fst (calculate_buildability b category) in
  PrimFloat.leb 0.0%float score = true /\ PrimFloat.leb score 1.0%float = true.
Proof.
  cbv zeta. rewrite calculate_buildability_factors. cbv zeta. simpl fst.
  pose proof clamped_scores_in_unit_interval as Hall.
  rewrite forallb_forall in Hall.
  match goal with
  | |- context [Scoring.additive_score ?e ?h ?c ?g] =>
      specialize (Hall (e, h, c, g))
  end.
  apply andb_true_iff. apply Hall.
  apply in_combinations.
  - exact (count_le_length _ EASY_INDICATORS).
  - exact (count_le_length _ HARD_INDICATORS).
Qed.

(** C2: the example bookmark "Awesome CLI Tool - GitHub" at
    https://github.com/foo/bar does not get the score 0.70. *)
Lemma example_score_is_not_0_70 :
  ~ exists b, awesome_cli_tool = Ok b
      /\ Bookmark.clean_name b = "Awesome CLI Tool"
      /\ categorize b = "tools"
      /\ fst (calculate_buildability b (categorize b)) = 0.7%float
      /\ geb (fst (calculate_buildability b (categorize b))) 0.6%float = true.
Proof.
  intros (b & Hb & _ & _ & Hscore & _).
  vm_compute in Hb. injection Hb as <-.
  vm_compute in Hscore.
  assert (E : PrimFloat.eqb 0.85%float 0.7%float = true)
    by (rewrite Hscore; reflexivity).
  vm_compute in E. discriminate E.
Qed.

(** C2, amended: for the bookmark "Awesome CLI Tool - GitHub" at
    https://github.com/foo/bar the pipeline yields the title
    "Awesome CLI Tool", the category tools, the score
    0.5 + 0.10 + 0.15 + 0.10 = 0.85 (easy indicator cli, weekend-friendly
    category, GitHub URL) and weekend_feasible = true, with and without the
    filter. *)
Theorem example_awesome_cli_tool (O : SetOrder) (buildable_only : bool) :
  exists b, awesome_cli_tool = Ok b
    /\ map idea_summary (analyze [b] buildable_only)
       = [("Awesome CLI Tool", "tools", 0.85%float, true)].
Proof.
  eexists. split; [vm_compute; reflexivity|].
  destruct buildable_only; vm_compute; reflexivity.
Qed.

(** C3: a URL with github.com in its path only gets the bonus although its
    host does not contain github.com. *)
Lemma github_bonus_without_github_host :
  exists b, github_in_path = Ok b
    /\ Bookmark.domain b = "example.com"
    /\ contains "github.com" (Bookmark.domain b) = false
    /\ calculate_buildability b (categorize b)
       = (0.6%float, "GitHub project (likely has code reference)").
Proof.
  eexists. split; [vm_compute; reflexivity|].
  repeat split; vm_compute; reflexivity.
Qed.

(** C3, amended: for every bookmark and category, the 0.10 bonus and its
    note "GitHub project (likely has code reference)" are granted if and only
    if the URL, taken as a whole string (host, path, query and all), contains
    the substring github.com: the note occurs in the reasoning exactly then,
    and the score is the clamped sum of the other adjustments, plus 0.1
    exactly then. *)
Theorem github_bonus_iff_url_contains (b : Bookmark.t) (category : str) :
  let text := lower (Bookmark.name b ++ " " ++ Bookmark.url b) in
  let easy := count (fun ind => contains ind text) EASY_INDICATORS in
  let hard := count (fun ind => contains ind text) HARD_INDICATORS in
  let base :=
    Scoring.additive_score easy hard (Scoring.class_of category) false in
  let github := contains "github.com" (Bookmark.url b) in
  contains Scoring.github_note (snd (calculate_buildability b category))
  = github
  /\ fst (calculate_buildability b category)
     = Scoring.clamp (if github then (base + 0.1)%float else base).
Proof.
  intros text easy hard base github.
  rewrite calculate_buildability_factors.
  fold text. fold easy. fold hard. fold github. split.
  - cbn [snd].
    pose proof github_note_tracks_github as Hall.
    rewrite forallb_forall in Hall.
    specialize (Hall (easy, hard, Scoring.class_of category, github)).
    apply eqb_prop. apply Hall.
    apply in_combinations.
    + exact (count_le_length _ EASY_INDICATORS).
    + exact (count_le_length _ HARD_INDICATORS).
  - cbn [fst]. subst base. destruct github; reflexivity.
Qed.

(** ** The categorizer *)

Section CategorizeFacts.

Variable text : str.

Let scored (entry : str * list str) : str * nat :=
  (fst entry, keyword_score text (snd entry)).

Let positive (cs : str * nat) : bool := 0 <? snd cs.

(** The dictionary [scores] after the loop: the categories with a positive
    score, in the order of the table. *)
Lemma scores_of_table (cats : list (str * list str)) (acc : list (str * nat)) :
  fold_left
    (fun scores '(category, keywords) =>
       let score := keyword_score text keywords in
       if 0 <? score then scores ++ [(category, score)] else scores)
    cats acc
  = acc ++ filter positive (map scored cats).
Proof.
  revert acc. induction cats as [|[category keywords] cats IH]; intros acc.
  - simpl. now rewrite app_nil_r.
  - simpl fold_left. rewrite IH. simpl map. simpl filter.
    unfold positive at 2, scored at 2. simpl fst. simpl snd.
    destruct (0 <? keyword_score text keywords).
    + now rewrite <- app_assoc.
    + reflexivity.
Qed.

(** [max] with a key returns the first element that carries the largest
    key. *)
Lemma max_by_key_invariant {A} (key : A -> nat) (rest : list A) :
  forall (best : A) (earlier later : list A),
    Forall (fun x => key x < key best) earlier ->
    Forall (fun x => key x <= key best) later ->
    exists pre post,
      earlier ++ best :: later ++ rest
      = pre ++ max_by_key key best rest :: post
      /\ Forall (fun x => key x < key (max_by_key key best rest)) pre
      /\ Forall (fun x => key x <= key (max_by_key key best rest)) post.
Proof.
  induction rest as [|x rest IH]; intros best earlier later Hpre Hpost.
  - exists earlier, later. rewrite app_nil_r. auto.
  - change (max_by_key key best (x :: rest))
      with (max_by_key key (if key best <? key x then x else best) rest).
    destruct (key best <? key x) eqn:E.
    + apply Nat.ltb_lt in E.
      destruct (IH x (earlier ++ best :: later) []) as (pre & post & Heq & H1 & H2).
      * apply Forall_app. split.
        -- eapply Forall_impl; [|exact Hpre]. simpl. intros; lia.
        -- constructor; [exact E|].
           eapply Forall_impl; [|exact Hpost]. simpl. intros; lia.
      * constructor.
      * exists pre, post. split; [|split; assumption].
        rewrite <- Heq. simpl. now rewrite <- app_assoc.
    + apply Nat.ltb_ge in E.
      destruct (IH best earlier (later ++ [x])) as (pre & post & Heq & H1 & H2).
      * exact Hpre.
      * apply Forall_app. split; [exact Hpost|]. constructor; [exact E|constructor].
      * exists pre, post. split; [|split; assumption].
        rewrite <- Heq. now rewrite <- app_assoc.
Qed.

Lemma max_by_key_first_largest {A} (key : A -> nat) (first : A) (rest : list A) :
  exists pre post,
    first :: rest = pre ++ max_by_key key first rest :: post
    /\ Forall (fun x => key x < key (max_by_key key first rest)) pre
    /\ Forall (fun x => key x <= key (max_by_key key first rest)) post.
Proof.
  exact (max_by_key_invariant key rest first [] [] (Forall_nil _) (Forall_nil _)).
Qed.

(** A split of the filtered list comes from a split of the list. *)
Lemma filter_split {A} (f : A -> bool) (l pre post : list A) (m : A) :
  filter f l = pre ++ m :: post ->
  exists pre' post',
    l = pre' ++ m :: post' /\ filter f pre' = pre /\ filter f post' = post
    /\ f m = true.
Proof.
  revert pre. induction l as [|x l IH]; intros pre Heq.
  - destruct pre; discriminate.
  - simpl in Heq. destruct (f x) eqn:E.
    + destruct pre as [|p pre].
      * injection Heq as Hx Hpost. subst x.
        exists [], l. simpl. auto.
      * injection Heq as Hx Hrest. subst p.
        destruct (IH pre Hrest) as (pre' & post' & -> & H1 & H2 & H3).
        exists (x :: pre'), post'. simpl. rewrite E, H1. auto.
    + destruct (IH pre Heq) as (pre' & post' & -> & H1 & H2 & H3).
      exists (x :: pre'), post'. simpl. rewrite E. auto.
Qed.

Lemma Forall_of_filter {A} (f : A -> bool) (P : A -> Prop) (l : list A) :
  Forall P (filter f l) -> (forall x, f x = false -> P x) -> Forall P l.
Proof.
  intros Hf Hrest. apply Forall_forall. intros x Hin.
  destruct (f x) eqn:E.
  - rewrite Forall_forall in Hf. apply Hf. apply filter_In. auto.
  - auto.
Qed.

Lemma first_highest_in_table (cats : list (str * list str)) :
  let score := fun entry : str * list str => keyword_score text (snd entry) in
  match filter positive (map scored cats) with
  | [] => Forall (fun e => score e = 0) cats
  | first :: rest =>
      exists before winner after,
        cats = before ++ winner :: after
        /\ fst (max_by_key snd first rest) = fst winner
        /\ 0 < score winner
        /\ Forall (fun e => score e < score winner) before
        /\ Forall (fun e => score e <= score winner) after
  end.
Proof.
  intros score.
  destruct (filter positive (map scored cats)) as [|first rest] eqn:Hscores.
  - apply Forall_forall. intros e He.
    assert (Hin : In (scored e) (map scored cats)) by now apply in_map.
    destruct (positive (scored e)) eqn:E.
    + assert (Hf : In (scored e) (filter positive (map scored cats)))
        by (apply filter_In; auto).
      rewrite Hscores in Hf. destruct Hf.
    + unfold positive, scored in E. simpl in E.
      apply Nat.ltb_ge in E. unfold score. lia.
  - destruct (max_by_key_first_largest snd first rest)
      as (pre & post & Hsplit & Hpre & Hpost).
    set (m := max_by_key snd first rest) in *.
    rewrite <- Hscores in Hsplit.
    destruct (filter_split _ _ _ _ _ Hsplit)
      as (pre' & post' & Hmap & Hfpre & Hfpost & Hm).
    apply map_eq_app in Hmap. destruct Hmap as (before & tl & -> & Hb & Htl).
    destruct tl as [|winner after]; [discriminate|].
    simpl in Htl. injection Htl as Hw Ha.
    assert (Hkey : snd m = score winner) by (rewrite <- Hw; reflexivity).
    assert (Hpos : 0 < score winner).
    { unfold positive in Hm. apply Nat.ltb_lt in Hm. lia. }
    exists before, winner, after. repeat split.
    + now rewrite <- Hw.
    + exact Hpos.
    + assert (H1 : Forall (fun x => snd x < snd m) pre').
      { apply (Forall_of_filter positive).
        - now rewrite Hfpre.
        - intros x Hx. unfold positive in Hx. apply Nat.ltb_ge in Hx. lia. }
      rewrite <- Hb in H1. rewrite Forall_map in H1.
      eapply Forall_impl; [|exact H1]. intros e He.
      change (keyword_score text (snd e) < snd m) in He.
      unfold score in *. lia.
    + assert (H2 : Forall (fun x => snd x <= snd m) post').
      { apply (Forall_of_filter positive).
        - now rewrite Hfpost.
        - intros x Hx. unfold positive in Hx. apply Nat.ltb_ge in Hx. lia. }
      rewrite <- Ha in H2. rewrite Forall_map in H2.
      eapply Forall_impl; [|exact H2]. intros e He.
      change (keyword_score text (snd e) <= snd m) in He.
      unfold score in *. lia.
Qed.

End CategorizeFacts.

(** C4: with the search text the lowercased "name url domain" and the score
    of a category the number of its keywords that occur in the text,
    [categorize] returns "other" when no category has a positive score, and
    otherwise the category of the table with the highest score, the first of
    them in the order of the table when several tie: every category before
    it scores strictly less, every category after it at most as much. *)
Theorem categorize_first_highest_or_other (b : Bookmark.t) :
  let text := lower (Bookmark.name b ++ " " ++ Bookmark.url b ++ " "
                     ++ Bookmark.domain b) in
  let score := fun entry : str * list str =>
                 count (fun kw => contains (lower kw) text) (snd entry) in
  (Forall (fun e => score e = 0) CATEGORIES /\ categorize b = "other")
  \/ (exists before winner after,
        CATEGORIES = before ++ winner :: after
        /\ categorize b = fst winner
        /\ 0 < score winner
        /\ Forall (fun e => score e < score winner) before
        /\ Forall (fun e => score e <= score winner) after).
Proof.
  intros text score.
  pose proof (first_highest_in_table text CATEGORIES) as Htable.
  unfold categorize. fold text in Htable |- *.
  change (search_text b) with text.
  rewrite scores_of_table. rewrite app_nil_l.
  cbv zeta in Htable.
  destruct (filter _ (map _ CATEGORIES)) as [|first rest].
  - left. split; [exact Htable|reflexivity].
  - right. exact Htable.
Qed.

(** ** The regular expression engine *)

Section ReFacts.
Import Re.

Lemma ends_seq (r1 r2 : regex) (p : pos) :
  ends (Seq r1 r2) p = flat_map (ends r2) (ends r1 p).
Proof. reflexivity. Qed.

Lemma ends_chr_cons (f : ascii -> bool) (prev : option ascii) (c : ascii)
  (s : str) :
  ends (Chr f) (prev, c :: s) = if f c then [(Some c, s)] else [].
Proof. reflexivity. Qed.

Lemma ends_chr_nil (f : ascii -> bool) (prev : option ascii) :
  ends (Chr f) (prev, []) = [].
Proof. reflexivity. Qed.

Lemma ends_eol (p : pos) :
  ends (Seq Eol Eps) p = if at_eol p then [p] else [].
Proof.
  rewrite ends_seq. simpl. destruct (at_eol p); reflexivity.
Qed.

Lemma iterate_chr (f : ascii -> bool) (s : str) :
  forall (n : nat) (prev : option ascii),
    length s <= n -> iterate (ends (Chr f)) n (prev, s) = star_chr f prev s.
Proof.
  induction s as [|c s IH]; intros n prev Hn.
  - destruct n; reflexivity.
  - destruct n as [|n]; [simpl in Hn; lia|].
    simpl in Hn. cbn [iterate]. rewrite ends_chr_cons. cbn [star_chr].
    destruct (f c); [|reflexivity].
    cbn [flat_map snd]. rewrite app_nil_r.
    replace (length s <? length (c :: s)) with true
      by (symmetry; apply Nat.ltb_lt; simpl; lia).
    rewrite IH by lia. reflexivity.
Qed.

Lemma ends_star_chr (f : ascii -> bool) (prev : option ascii) (s : str) :
  ends (Star (Chr f)) (prev, s) = star_chr f prev s.
Proof. apply iterate_chr. simpl. lia. Qed.

Lemma rest_after_app (l1 l2 : list pos) :
  rest_after (l1 ++ l2)
  = match rest_after l1 with Some s => Some s | None => rest_after l2 end.
Proof. destruct l1; reflexivity. Qed.

Lemma rest_after_None (l : list pos) : rest_after l = None -> l = [].
Proof. destruct l; [reflexivity|discriminate]. Qed.

(** Once the scan is inside a match that reaches the end of the text,
    nothing more is kept. *)
Lemma sub_scan_skip_all (r : regex) (s : str) :
  forall (prev : option ascii) (k : nat),
    length s <= k -> sub_scan r prev s k = [].
Proof.
  induction s as [|c s IH]; intros prev k Hk; [reflexivity|].
  destruct k as [|k]; [simpl in Hk; lia|].
  simpl. apply IH. simpl in Hk. lia.
Qed.

End ReFacts.

(** ** The suffix pattern of [_clean_name] *)

Section SuffixFacts.
Import Re SuffixSpec.

Let ws := isspace.
Let sep := Bookmark.is_separator.
Let wsw := Bookmark.word_or_space.

(** The pattern after the separator, and after the whitespace that follows
    the separator. *)
Let T0 : regex := Seq (Plus (Chr wsw)) (Seq Eol Eps).
Let T : regex := Seq (Star (Chr ws)) T0.

Lemma suffix_pattern_eq :
  Bookmark.suffix_pattern = Seq (Star (Chr ws)) (Seq (Chr sep) T).
Proof. reflexivity. Qed.

Lemma separator_not_space (c : ascii) : sep c = true -> ws c = false.
Proof.
  destruct c as [[] [] [] [] [] [] [] []]; vm_compute; congruence.
Qed.

Lemma separator_not_word_or_space (c : ascii) : sep c = true -> wsw c = false.
Proof.
  destruct c as [[] [] [] [] [] [] [] []]; vm_compute; congruence.
Qed.

Lemma space_word_or_space (c : ascii) : ws c = true -> wsw c = true.
Proof. intros Hc. unfold wsw, Bookmark.word_or_space. fold ws. rewrite Hc. apply orb_true_r. Qed.

Lemma newline_word_or_space (c : ascii) : code_is 10 c = true -> wsw c = true.
Proof.
  destruct c as [[] [] [] [] [] [] [] []]; vm_compute; congruence.
Qed.

Lemma trailing_words_cons (c : ascii) (s : str) :
  trailing_words (c :: s) = wsw c && forallb wsw s.
Proof. reflexivity. Qed.

Lemma trailing_words_forallb (s : str) :
  trailing_words s = true -> forallb wsw s = true.
Proof. destruct s; [discriminate|auto]. Qed.

(** After a run of word and whitespace characters, the end-of-text test
    succeeds first at the end of the text, and only if the run reaches it. *)
Lemma eol_after_run (s : str) :
  forall prev : option ascii,
    rest_after (flat_map (ends (Seq Eol Eps)) (star_chr wsw prev s))
    = if forallb wsw s then Some [] else None.
Proof.
  induction s as [|c s IH]; intros prev.
  - reflexivity.
  - cbn [star_chr forallb]. destruct (wsw c) eqn:Hc.
    + rewrite flat_map_app, rest_after_app, IH. cbn [andb].
      destruct (forallb wsw s) eqn:Hs; [reflexivity|].
      cbn [flat_map]. rewrite ends_eol. unfold at_eol. cbn [snd].
      destruct s; [discriminate Hs|reflexivity].
    + cbn [andb flat_map]. rewrite ends_eol. unfold at_eol. cbn [snd].
      destruct s; [|reflexivity].
      destruct (code_is 10 c) eqn:Hn; [|reflexivity].
      apply newline_word_or_space in Hn. congruence.
Qed.

Lemma rest_after_T0 (prev : option ascii) (s : str) :
  rest_after (ends T0 (prev, s)) = if trailing_words s then Some [] else None.
Proof.
  unfold T0, Plus. rewrite ends_seq, ends_seq.
  destruct s as [|c s].
  - reflexivity.
  - rewrite ends_chr_cons, trailing_words_cons.
    destruct (wsw c); [|reflexivity].
    cbn [flat_map andb]. rewrite app_nil_r, ends_star_chr.
    apply eol_after_run.
Qed.

Lemma rest_after_T_run (s : str) :
  forall prev : option ascii,
    rest_after (flat_map (ends T0) (star_chr ws prev s))
    = if trailing_words s then Some [] else None.
Proof.
  induction s as [|c s IH]; intros prev.
  - cbn [star_chr flat_map]. rewrite app_nil_r. apply rest_after_T0.
  - cbn [star_chr]. destruct (ws c) eqn:Hc.
    + rewrite flat_map_app, rest_after_app, IH.
      cbn [flat_map]. rewrite app_nil_r, rest_after_T0.
      destruct (trailing_words s) eqn:Hs; [|reflexivity].
      rewrite trailing_words_cons, (space_word_or_space _ Hc).
      now rewrite (trailing_words_forallb _ Hs).
    + cbn [flat_map]. rewrite app_nil_r. apply rest_after_T0.
Qed.

Lemma rest_after_T (prev : option ascii) (s : str) :
  rest_after (ends T (prev, s)) = if trailing_words s then Some [] else None.
Proof.
  unfold T. rewrite ends_seq, ends_star_chr. apply rest_after_T_run.
Qed.

Lemma rest_after_pattern_run (s : str) :
  forall prev : option ascii,
    rest_after (flat_map (ends (Seq (Chr sep) T)) (star_chr ws prev s))
    = if matches_here s then Some [] else None.
Proof.
  induction s as [|c s IH]; intros prev.
  - reflexivity.
  - cbn [star_chr matches_here]. fold ws. fold sep.
    destruct (ws c) eqn:Hc.
    + rewrite flat_map_app, rest_after_app, IH.
      destruct (matches_here s); [reflexivity|].
      cbn [flat_map]. rewrite app_nil_r, ends_seq, ends_chr_cons.
      destruct (sep c) eqn:Hsep; [|reflexivity].
      apply separator_not_space in Hsep. congruence.
    + cbn [flat_map]. rewrite app_nil_r, ends_seq, ends_chr_cons.
      destruct (sep c); [|reflexivity].
      cbn [flat_map]. rewrite app_nil_r. apply rest_after_T.
Qed.

(** Where the pattern matches, its match reaches the end of the text. *)
Lemma rest_after_pattern (prev : option ascii) (s : str) :
  rest_after (ends Bookmark.suffix_pattern (prev, s))
  = if matches_here s then Some [] else None.
Proof.
  rewrite suffix_pattern_eq, ends_seq, ends_star_chr.
  apply rest_after_pattern_run.
Qed.

(** The substitution keeps the text before the leftmost match. *)
Lemma sub_empty_cut (s : str) :
  forall prev : option ascii,
    sub_scan Bookmark.suffix_pattern prev s 0 = cut s.
Proof.
  induction s as [|c s IH]; intros prev; [reflexivity|].
  cbn [sub_scan].
  change (cut (c :: s))
    with (if matches_here (c :: s) then [] else c :: cut s).
  match goal with
  | |- context [match_at ?r ?p] =>
      assert (Hm : option_map snd (match_at r p)
                   = if matches_here (c :: s) then Some [] else None)
        by apply rest_after_pattern;
      destruct (match_at r p) as [q|]
  end.
  - destruct (matches_here (c :: s)); [|discriminate Hm].
    simpl in Hm. injection Hm as Hrest. rewrite Hrest.
    cbn [length]. rewrite Nat.sub_0_r.
    apply sub_scan_skip_all. lia.
  - destruct (matches_here (c :: s)); [discriminate Hm|].
    now rewrite IH.
Qed.

End SuffixFacts.

(** ** One suffix *)

Section OneSuffix.
Import SuffixSpec.

Local Abbreviation ws := isspace.
Local Abbreviation sep := Bookmark.is_separator.
Local Abbreviation wsw := Bookmark.word_or_space.

Lemma dropwhile_all (f : ascii -> bool) (l : str) :
  forallb f l = true -> dropwhile f l = [].
Proof.
  induction l as [|x l IH]; [reflexivity|].
  simpl. destruct (f x); [exact IH|discriminate].
Qed.

Lemma dropwhile_snoc (f : ascii -> bool) (l : str) (c : ascii) :
  dropwhile f (l ++ [c])
  = if forallb f l then (if f c then [] else [c]) else dropwhile f l ++ [c].
Proof.
  induction l as [|x l IH]; [reflexivity|].
  simpl. destruct (f x); [exact IH|reflexivity].
Qed.

Lemma forallb_rev (f : ascii -> bool) (l : str) :
  forallb f (rev l) = forallb f l.
Proof.
  induction l as [|x l IH]; [reflexivity|].
  simpl. rewrite forallb_app, IH. simpl.
  rewrite andb_true_r. apply andb_comm.
Qed.

Lemma rstrip_of_cons (f : ascii -> bool) (c : ascii) (b : str) :
  rstrip_of f (c :: b)
  = if forallb f (c :: b) then [] else c :: rstrip_of f b.
Proof.
  unfold rstrip_of. cbn [rev forallb]. rewrite dropwhile_snoc, forallb_rev.
  destruct (forallb f b) eqn:Hb.
  - rewrite andb_true_r.
    rewrite (dropwhile_all f (rev b)) by now rewrite forallb_rev.
    destruct (f c); reflexivity.
  - rewrite andb_false_r. rewrite rev_app_distr. reflexivity.
Qed.

(** A text with a separator in it is no run of trailing words. *)
Lemma separator_inside (s before after : str) :
  split_last_separator s = Some (before, after) -> forallb wsw s = false.
Proof.
  revert before after.
  induction s as [|c s IH]; intros before after Hs; [discriminate|].
  cbn [split_last_separator] in Hs. cbn [forallb].
  destruct (split_last_separator s) as [[b a]|].
  - rewrite (IH b a eq_refl). apply andb_false_r.
  - destruct (sep c) eqn:Hc; [|discriminate].
    now rewrite (separator_not_word_or_space c Hc).
Qed.

Lemma no_separator_no_match (s : str) :
  split_last_separator s = None -> matches_here s = false.
Proof.
  induction s as [|c s IH]; intros Hs; [reflexivity|].
  cbn [split_last_separator] in Hs. cbn [matches_here].
  destruct (split_last_separator s) as [[b a]|]; [discriminate|].
  destruct (sep c); [discriminate|].
  rewrite (IH eq_refl). now destruct (isspace c).
Qed.

Lemma trailing_words_false (s before after : str) :
  split_last_separator s = Some (before, after) -> trailing_words s = false.
Proof.
  intros Hs. destruct s as [|c s]; [reflexivity|].
  exact (separator_inside _ _ _ Hs).
Qed.

(** The pattern matches at the start of [s] when the last separator is
    followed by trailing words and preceded by whitespace only. *)
Lemma matches_here_last_separator (s : str) :
  forall before after : str,
    split_last_separator s = Some (before, after) ->
    matches_here s = trailing_words after && forallb ws before.
Proof.
  induction s as [|c s IH]; intros before after Hs; [discriminate|].
  cbn [split_last_separator] in Hs. cbn [matches_here].
  destruct (split_last_separator s) as [[b a]|] eqn:Hsplit.
  - injection Hs as <- <-.
    rewrite (IH b a eq_refl). cbn [forallb].
    destruct (ws c); [reflexivity|].
    rewrite (trailing_words_false _ _ _ Hsplit).
    cbn [andb]. rewrite andb_false_r. now destruct (sep c).
  - destruct (sep c) eqn:Hc; [|discriminate].
    injection Hs as <- <-.
    rewrite (separator_not_space c Hc).
    cbn [forallb]. now rewrite andb_true_r.
Qed.

(** The text before the leftmost match is the name without its last
    suffix. *)
Lemma cut_strip_one_suffix (s : str) : cut s = strip_one_suffix s.
Proof.
  induction s as [|c s IH]; [reflexivity|].
  change (cut (c :: s))
    with (if matches_here (c :: s) then [] else c :: cut s).
  rewrite IH. unfold strip_one_suffix.
  destruct (split_last_separator (c :: s)) as [[before after]|] eqn:Hcs.
  - rewrite (matches_here_last_separator _ _ _ Hcs).
    cbn [split_last_separator] in Hcs.
    destruct (split_last_separator s) as [[b a]|].
    + injection Hcs as <- <-.
      destruct (trailing_words a); [|reflexivity].
      cbn [andb]. now rewrite rstrip_of_cons.
    + destruct (sep c); [|discriminate].
      injection Hcs as <- <-.
      cbn [forallb]. rewrite andb_true_r.
      now destruct (trailing_words s).
  - rewrite (no_separator_no_match _ Hcs).
    cbn [split_last_separator] in Hcs.
    destruct (split_last_separator s) as [[b a]|]; [discriminate|].
    reflexivity.
Qed.

End OneSuffix.

Example clean_name_site :
  Bookmark._clean_name "Foo Bar - Some Site" = "Foo Bar".
Proof. vm_compute. reflexivity. Qed.

Example clean_name_pipe : Bookmark._clean_name "API | GitHub" = "API".
Proof. vm_compute. reflexivity. Qed.

Example clean_name_last_suffix_only :
  Bookmark._clean_name "Docs - Guide - Site" = "Docs - Guide".
Proof. vm_compute. reflexivity. Qed.

Example clean_name_no_trailing_words :
  Bookmark._clean_name "Home - example.com" = "Home - example.com".
Proof. vm_compute. reflexivity. Qed.

(** C5: the name " - Foo" is all suffix; the result is the name as it is, with
    its leading blank, and not the trimmed name "- Foo". *)
Lemma clean_name_fallback_not_trimmed :
  Bookmark._clean_name " - Foo" = " - Foo"
  /\ strip (Re.sub_empty Bookmark.suffix_pattern " - Foo") = ""
  /\ Bookmark._clean_name " - Foo" <> strip " - Foo".
Proof.
  repeat split; try (vm_compute; reflexivity).
  vm_compute. discriminate.
Qed.

(** C5, amended: for every name, the substitution of [_clean_name] removes
    one suffix only, the last separator ("-" or "|") of the name with the
    whitespace before it and what follows it, when what follows is not empty
    and made of word and whitespace characters, and nothing otherwise; the
    result is stripped of surrounding whitespace; when that leaves nothing,
    [_clean_name] is the original name, unchanged (not trimmed). *)
Theorem clean_name_strips_one_suffix (name : str) :
  Re.sub_empty Bookmark.suffix_pattern name = SuffixSpec.strip_one_suffix name
  /\ Bookmark._clean_name name
     = match strip (SuffixSpec.strip_one_suffix name) with
       | [] => name
       | stripped => stripped
       end.
Proof.
  assert (Hsub : Re.sub_empty Bookmark.suffix_pattern name
                 = SuffixSpec.strip_one_suffix name).
  { unfold Re.sub_empty. rewrite sub_empty_cut. apply cut_strip_one_suffix. }
  split; [exact Hsub|].
  unfold Bookmark._clean_name. now rewrite Hsub.
Qed.

(** ** The tree extractor *)

Section TraverseFacts.
Context `{UrlLib}.
Import BookmarkParser TreeSpec.

Local Abbreviation accepted :=
  (fun leaf => match record_of leaf with Ok _ => true | _ => false end).

Lemma kind_test (items : list (str * json)) (k : str) :
  Json.eq_str
    (match Json.lookup items "type" with Some v => v | None => JNull end) k
  = is_kind k (JDict items).
Proof. unfold is_kind. destruct (Json.lookup items "type"); reflexivity. Qed.

Lemma text_field (items : list (str * json)) (k default : str) :
  text_or_missing items k = true ->
  Json.as_str
    (match Json.lookup items k with Some v => v | None => JString default end)
  = Ok (field items k default).
Proof.
  unfold text_or_missing, field.
  destruct (Json.lookup items k) as [[]|]; (reflexivity || discriminate).
Qed.

(** One call of [traverse] on an object, by the kind of the node. *)
Lemma traverse_url (fuel : nat) (items : list (str * json)) (path : str)
  (acc : list Bookmark.t) :
  is_kind "url" (JDict items) = true ->
  text_or_missing items "name" = true ->
  text_or_missing items "url" = true ->
  traverse (S fuel) (JDict items) path acc
  = (bm <- record_of (JDict items, path) ;; Ok (acc ++ [bm])).
Proof.
  intros Hkind Hname Hurl.
  cbn [traverse Json.get bind]. rewrite kind_test, Hkind.
  rewrite (text_field _ _ _ Hname), (text_field _ _ _ Hurl).
  reflexivity.
Qed.

Lemma traverse_folder (fuel : nat) (items : list (str * json)) (path : str)
  (acc : list Bookmark.t) :
  is_kind "url" (JDict items) = false ->
  is_kind "folder" (JDict items) = true ->
  text_or_missing items "name" = true ->
  traverse (S fuel) (JDict items) path acc
  = (children <-
       Json.iter (match Json.lookup items "children" with
                  | Some v => v
                  | None => JList []
                  end) ;;
     for_each children
       (fun child bookmarks =>
          traverse fuel child (child_path path (JDict items)) bookmarks)
       acc).
Proof.
  intros Hurl Hkind Hname.
  cbn [traverse Json.get bind]. rewrite !kind_test, Hurl, Hkind.
  rewrite (text_field _ _ _ Hname). cbn [bind].
  reflexivity.
Qed.

Lemma traverse_other (fuel : nat) (items : list (str * json)) (path : str)
  (acc : list Bookmark.t) :
  is_kind "url" (JDict items) = false ->
  is_kind "folder" (JDict items) = false ->
  traverse (S fuel) (JDict items) path acc = Ok acc.
Proof.
  intros Hurl Hkind.
  cbn [traverse Json.get bind]. now rewrite !kind_test, Hurl, Hkind.
Qed.

Lemma accepted_record (leaf : json * str) :
  accepted leaf = true -> exists b, record_of leaf = Ok b.
Proof.
  cbv beta. destruct (record_of leaf); intros Hacc;
    [eauto|discriminate Hacc..].
Qed.

(** The loop over the children of a folder, given the property of
    [traverse] on each child. *)
Lemma for_each_children (fuel : nat) (path : str) (l : list json) :
  (forall child acc,
      well_formed fuel child = true ->
      forallb accepted (leaves fuel child path) = true ->
      exists bs, traverse fuel child path acc = Ok (acc ++ bs)
                 /\ map Ok bs = map record_of (leaves fuel child path)) ->
  forall acc,
    forallb (well_formed fuel) l = true ->
    forallb accepted (flat_map (fun child => leaves fuel child path) l) = true ->
    exists bs,
      for_each l (fun child bookmarks => traverse fuel child path bookmarks) acc
      = Ok (acc ++ bs)
      /\ map Ok bs
         = map record_of (flat_map (fun child => leaves fuel child path) l).
Proof.
  intros Hchild.
  induction l as [|child l IH]; intros acc Hwf Hacc.
  - exists []. split; [simpl; now rewrite app_nil_r|reflexivity].
  - cbn [forallb] in Hwf. apply andb_true_iff in Hwf as [Hwf1 Hwf2].
    cbn [flat_map] in Hacc. rewrite forallb_app in Hacc.
    apply andb_true_iff in Hacc as [Hacc1 Hacc2].
    destruct (Hchild child acc Hwf1 Hacc1) as (bs1 & Hrun1 & Hmap1).
    destruct (IH (acc ++ bs1) Hwf2 Hacc2) as (bs2 & Hrun2 & Hmap2).
    exists (bs1 ++ bs2). split.
    + cbn [for_each]. rewrite Hrun1. cbn [bind]. rewrite Hrun2.
      now rewrite app_assoc.
    + cbn [flat_map]. rewrite !map_app. now rewrite Hmap1, Hmap2.
Qed.

(** [traverse] appends the records of the leaves below the node, in
    pre-order. *)
Lemma traverse_leaves (fuel : nat) :
  forall (node : json) (path : str) (acc : list Bookmark.t),
    well_formed fuel node = true ->
    forallb accepted (leaves fuel node path) = true ->
    exists bs, traverse fuel node path acc = Ok (acc ++ bs)
               /\ map Ok bs = map record_of (leaves fuel node path).
Proof.
  induction fuel as [|fuel IH]; intros node path acc Hwf Hacc;
    [discriminate|].
  cbn [well_formed] in Hwf. destruct node as [| | | | | |items];
    try discriminate.
  cbn [leaves] in Hacc |- *.
  destruct (is_kind "url" (JDict items)) eqn:Hurl.
  - apply andb_true_iff in Hwf as [Hname Hu].
    rewrite (traverse_url _ _ _ _ Hurl Hname Hu).
    cbn [forallb] in Hacc. rewrite andb_true_r in Hacc.
    destruct (accepted_record _ Hacc) as [b Hb].
    exists [b]. rewrite Hb. split; [reflexivity|].
    simpl. now rewrite Hb.
  - destruct (is_kind "folder" (JDict items)) eqn:Hfolder.
    + apply andb_true_iff in Hwf as [Hname Hchildren].
      rewrite (traverse_folder _ _ _ _ Hurl Hfolder Hname).
      unfold children in Hacc |- *.
      destruct (Json.lookup items "children") as [v|].
      * destruct v; try discriminate. cbn [Json.iter bind].
        apply for_each_children; auto.
      * cbn [Json.iter bind for_each flat_map].
        exists []. split; [now rewrite app_nil_r|reflexivity].
    + rewrite (traverse_other _ _ _ _ Hurl Hfolder).
      exists []. split; [now rewrite app_nil_r|reflexivity].
Qed.

(** The loop of [parse_chrome] over the roots. *)
Lemma for_each_roots (fuel : nat) (roots : list (str * json)) :
  forall acc,
    forallb (fun kv => well_formed fuel (snd kv))
            (filter (fun kv => allowed (fst kv)) roots) = true ->
    forallb accepted
      (flat_map (fun kv => leaves fuel (snd kv) (fst kv))
                (filter (fun kv => allowed (fst kv)) roots)) = true ->
    exists bs,
      for_each roots
        (fun '(root_name, root_node) bookmarks =>
           if existsb (str_eqb root_name) allowed_roots
           then traverse fuel root_node root_name bookmarks
           else Ok bookmarks)
        acc
      = Ok (acc ++ bs)
      /\ map Ok bs
         = map record_of
             (flat_map (fun kv => leaves fuel (snd kv) (fst kv))
                       (filter (fun kv => allowed (fst kv)) roots)).
Proof.
  induction roots as [|[root_name root_node] roots IH]; intros acc Hwf Hacc.
  - exists []. split; [simpl; now rewrite app_nil_r|reflexivity].
  - cbn [for_each filter fst] in *. unfold allowed at 1 in Hwf.
    unfold allowed at 1 in Hacc. unfold allowed at 1.
    destruct (existsb (str_eqb root_name) allowed_roots).
    + cbn [forallb snd] in Hwf. apply andb_true_iff in Hwf as [Hwf1 Hwf2].
      cbn [flat_map fst snd] in Hacc |- *. rewrite forallb_app in Hacc.
      apply andb_true_iff in Hacc as [Hacc1 Hacc2].
      destruct (traverse_leaves fuel root_node root_name acc Hwf1 Hacc1)
        as (bs1 & Hrun1 & Hmap1).
      destruct (IH (acc ++ bs1) Hwf2 Hacc2) as (bs2 & Hrun2 & Hmap2).
      exists (bs1 ++ bs2). split.
      * rewrite Hrun1. cbn [bind]. rewrite Hrun2. now rewrite app_assoc.
      * rewrite !map_app. now rewrite Hmap1, Hmap2.
    + cbn [bind]. apply IH; assumption.
Qed.

End TraverseFacts.

(** ** The depth of the tree is enough fuel *)

Section FuelFacts.
Import TreeSpec.

Lemma lookup_depth (items : list (str * json)) (k : str) (v : json) :
  Json.lookup items k = Some v -> Json.depth v < Json.depth (JDict items).
Proof.
  cbn [Json.depth]. induction items as [|[k' v'] items IH]; intros Hv.
  - discriminate.
  - cbn [Json.lookup] in Hv. cbn [map Json.list_max snd].
    destruct (str_eqb k' k).
    + injection Hv as ->. lia.
    + specialize (IH Hv). lia.
Qed.

Lemma element_depth (l : list json) (child : json) :
  In child l -> Json.depth child < Json.depth (JList l).
Proof.
  cbn [Json.depth]. induction l as [|x l IH]; intros Hin; [destruct Hin|].
  cbn [map Json.list_max]. destruct Hin as [->|Hin].
  - lia.
  - specialize (IH Hin). lia.
Qed.

(** More fuel changes neither the test nor the leaves of a well-formed
    tree. *)
Lemma well_formed_more_fuel (fuel : nat) :
  forall node : json,
    well_formed fuel node = true -> well_formed (S fuel) node = true.
Proof.
  induction fuel as [|fuel IH]; intros node Hwf; [discriminate|].
  cbn [well_formed] in Hwf. remember (S fuel) as fuel' eqn:Hf.
  cbn [well_formed]. subst fuel'.
  destruct node as [| | | | | |items]; try discriminate.
  destruct (is_kind "url" (JDict items)); [exact Hwf|].
  destruct (is_kind "folder" (JDict items)); [|exact Hwf].
  apply andb_true_iff in Hwf as [Hname Hchildren].
  rewrite Hname. cbn [andb].
  destruct (Json.lookup items "children") as [[]|]; try assumption.
  rewrite forallb_forall in Hchildren |- *.
  intros child Hin. apply IH. now apply Hchildren.
Qed.

Lemma well_formed_fuel_le (fuel fuel' : nat) (node : json) :
  fuel <= fuel' ->
  well_formed fuel node = true -> well_formed fuel' node = true.
Proof.
  induction 1 as [|fuel' _ IH]; intros Hwf; [exact Hwf|].
  apply well_formed_more_fuel. now apply IH.
Qed.

Lemma well_formed_at_depth (fuel : nat) :
  forall node : json,
    well_formed fuel node = true -> well_formed (Json.depth node) node = true.
Proof.
  induction fuel as [|fuel IH]; intros node Hwf; [discriminate|].
  cbn [well_formed] in Hwf.
  destruct node as [| | | | | |items]; try discriminate.
  pose proof (lookup_depth items "children") as Hdepth.
  cbn [Json.depth] in Hdepth |- *. cbn [well_formed].
  destruct (is_kind "url" (JDict items)); [exact Hwf|].
  destruct (is_kind "folder" (JDict items)); [|exact Hwf].
  apply andb_true_iff in Hwf as [Hname Hchildren].
  rewrite Hname. cbn [andb].
  destruct (Json.lookup items "children") as [[]|]; try assumption.
  rewrite forallb_forall in Hchildren |- *.
  intros child Hin.
  apply (well_formed_fuel_le (Json.depth child)).
  - specialize (Hdepth _ eq_refl).
    pose proof (element_depth _ _ Hin) as Hchild. lia.
  - apply IH. now apply Hchildren.
Qed.

Lemma leaves_S (fuel : nat) (node : json) (path : str) :
  leaves (S fuel) node path
  = if is_kind "url" node then [(node, path)]
    else if is_kind "folder" node
    then flat_map (fun child => leaves fuel child (child_path path node))
                  (children node)
    else [].
Proof. reflexivity. Qed.

Lemma leaves_more_fuel (fuel : nat) :
  forall (node : json) (path : str),
    well_formed fuel node = true ->
    leaves (S fuel) node path = leaves fuel node path.
Proof.
  induction fuel as [|fuel IH]; intros node path Hwf; [discriminate|].
  rewrite (leaves_S (S fuel)), (leaves_S fuel).
  cbn [well_formed] in Hwf.
  destruct node as [| | | | | |items]; try discriminate.
  destruct (is_kind "url" (JDict items)); [reflexivity|].
  destruct (is_kind "folder" (JDict items)); [|reflexivity].
  apply andb_true_iff in Hwf as [_ Hchildren].
  unfold children.
  destruct (Json.lookup items "children") as [[]|]; try reflexivity.
  induction l as [|child l IHl]; [reflexivity|].
  cbn [forallb] in Hchildren. apply andb_true_iff in Hchildren as [H1 H2].
  cbn [flat_map]. rewrite (IH child _ H1). f_equal. now apply IHl.
Qed.

(** With any fuel at least the depth of a well-formed tree, the test
    succeeds and the leaves are the same. *)
Lemma depth_is_enough (fuel fuel' : nat) (node : json) (path : str) :
  well_formed fuel node = true ->
  Json.depth node <= fuel' ->
  well_formed fuel' node = true
  /\ leaves fuel' node path = leaves (Json.depth node) node path.
Proof.
  intros Hwf Hle. apply well_formed_at_depth in Hwf.
  split; [now apply (well_formed_fuel_le (Json.depth node))|].
  induction Hle as [|fuel' Hle IH]; [reflexivity|].
  rewrite leaves_more_fuel; [exact IH|].
  now apply (well_formed_fuel_le (Json.depth node)).
Qed.

(** [traverse] never runs out of fuel: with any fuel at least the depth of
    the node, on any value, it gives the same outcome. *)
Lemma depth_positive (v : json) : 1 <= Json.depth v.
Proof. destruct v; cbn [Json.depth]; lia. Qed.

Lemma iter_depth (v : json) (l : list json) (child : json) :
  Json.iter v = Ok l -> In child l -> Json.depth child <= Json.depth v.
Proof.
  intros Hiter Hin. destruct v; try discriminate; injection Hiter as <-.
  - apply in_map_iff in Hin as (c & <- & _). reflexivity.
  - apply Nat.lt_le_incl. now apply element_depth.
  - apply in_map_iff in Hin as (kv & <- & _).
    cbn [Json.depth]. lia.
Qed.

Lemma children_depth (node v : json) (l : list json) (child : json) :
  Json.get node "children" (JList []) = Ok v ->
  Json.iter v = Ok l -> In child l ->
  Json.depth child < Json.depth node.
Proof.
  intros Hget Hiter Hin.
  destruct node as [| | | | | |items]; try discriminate.
  cbn [Json.get] in Hget. injection Hget as Hv.
  destruct (Json.lookup items "children") as [v'|] eqn:Hlookup.
  - subst v'. pose proof (lookup_depth _ _ _ Hlookup).
    pose proof (iter_depth _ _ _ Hiter Hin). lia.
  - subst v. injection Hiter as <-. destruct Hin.
Qed.

Lemma for_each_ext {A S} (l : list A) (body1 body2 : A -> S -> result S) :
  (forall x st, In x l -> body1 x st = body2 x st) ->
  forall st, for_each l body1 st = for_each l body2 st.
Proof.
  induction l as [|x l IH]; intros Hbody st; [reflexivity|].
  cbn [for_each]. rewrite (Hbody x st (or_introl eq_refl)).
  destruct (body2 x st); cbn [bind]; try reflexivity.
  apply IH. intros y st' Hy. apply Hbody. now right.
Qed.

Lemma traverse_fuel_irrelevant `{UrlLib} (fuel : nat) :
  forall (fuel' : nat) (node : json) (path : str) (acc : list Bookmark.t),
    Json.depth node <= fuel -> Json.depth node <= fuel' ->
    BookmarkParser.traverse fuel node path acc
    = BookmarkParser.traverse fuel' node path acc.
Proof.
  induction fuel as [|fuel IH]; intros fuel' node path acc H1 H2;
    pose proof (depth_positive node) as Hpos; [lia|].
  destruct fuel' as [|fuel']; [lia|].
  cbn [BookmarkParser.traverse].
  destruct (Json.get node "type" JNull) as [type| |];
    cbn [bind]; try reflexivity.
  destruct (Json.eq_str type "url"); [reflexivity|].
  destruct (Json.eq_str type "folder"); [|reflexivity].
  destruct (Json.get node "name" (JString "Unnamed")) as [name| |];
    cbn [bind]; try reflexivity.
  destruct (Json.as_str name) as [folder| |]; cbn [bind]; try reflexivity.
  destruct (Json.get node "children" (JList [])) as [v| |] eqn:Hget;
    cbn [bind]; try reflexivity.
  destruct (Json.iter v) as [l| |] eqn:Hiter; cbn [bind]; try reflexivity.
  apply for_each_ext. intros child st Hin.
  pose proof (children_depth _ _ _ _ Hget Hiter Hin) as Hchild.
  apply IH; lia.
Qed.

End FuelFacts.

(** C6: a well-formed tree whose only leaf has the URL http://[ gives no
    record for that leaf: [urlparse] raises [ValueError] while the record is
    built, and the extraction ends with it. *)
Lemma rejected_url_aborts_extraction :
  TreeSpec.valid_tree bad_url_tree = true
  /\ length (TreeSpec.reachable_leaves bad_url_tree) = 1
  /\ @BookmarkParser.parse_chrome plain_urllib bad_url_tree = Raise ValueError.
Proof. repeat split; vm_compute; reflexivity. Qed.

(** C6, amended: for every valid folder tree in which the URL of every leaf
    reachable from an allow-listed root is accepted by the URL parser, the
    extraction emits exactly one record per such leaf, in pre-order: the
    records are those of the reachable leaves, in their order, and there are
    as many.  Folders give no record of their own; roots off the allow-list
    are not read; nodes of another kind are skipped. *)
Theorem parse_chrome_one_record_per_leaf `{UrlLib} (data : json) :
  TreeSpec.valid_tree data = true ->
  TreeSpec.urls_accepted data = true ->
  exists bs,
    BookmarkParser.parse_chrome data = Ok bs
    /\ map Ok bs = map TreeSpec.record_of (TreeSpec.reachable_leaves data)
    /\ length bs = length (TreeSpec.reachable_leaves data).
Proof.
  intros Hvalid Haccepted.
  assert (Hgoal : exists bs,
             BookmarkParser.parse_chrome data = Ok bs
             /\ map Ok bs
                = map TreeSpec.record_of (TreeSpec.reachable_leaves data)).
  { unfold TreeSpec.valid_tree in Hvalid.
    unfold TreeSpec.urls_accepted, TreeSpec.reachable_leaves in *.
    unfold BookmarkParser.parse_chrome.
    destruct data as [| | | | | |items]; try discriminate.
    unfold TreeSpec.allowed_root_nodes in *. cbn [Json.get bind].
    destruct (Json.lookup items "roots") as [roots|].
    - destruct roots as [| | | | | |roots]; try discriminate.
      cbn [Json.items bind].
      destruct (for_each_roots (Json.depth (JDict items)) roots []
                  Hvalid Haccepted) as (bs & Hrun & Hmap).
      exists bs. split; assumption.
    - exists []. split; reflexivity. }
  destruct Hgoal as (bs & Hrun & Hmap).
  exists bs. repeat split; try assumption.
  rewrite <- (length_map Ok bs), Hmap. apply length_map.
Qed.

Lemma parse_chrome_sample_tree :
  TreeSpec.valid_tree sample_tree = true
  /\ @TreeSpec.urls_accepted plain_urllib sample_tree = true
  /\ exists bs,
       @BookmarkParser.parse_chrome plain_urllib sample_tree = Ok bs
       /\ map Ok bs
          = map (@TreeSpec.record_of plain_urllib)
                (TreeSpec.reachable_leaves sample_tree)
       /\ length bs = length (TreeSpec.reachable_leaves sample_tree).
Proof.
  split; [vm_compute; reflexivity|].
  split; [vm_compute; reflexivity|].
  apply (@parse_chrome_one_record_per_leaf plain_urllib sample_tree);
    vm_compute; reflexivity.
Defined.

(** C7: when the value read from the file is not an object, [parse_chrome]
    fails: the call [data.get] raises [AttributeError], which reaches the
    caller; no empty list of records is returned. *)
Theorem parse_chrome_rejects_non_object `{UrlLib} (data : json) :
  (forall items, data <> JDict items) ->
  BookmarkParser.parse_chrome data = Raise AttributeError
  /\ BookmarkParser.parse_chrome data <> Ok [].
Proof.
  intros Hdata.
  assert (Hraise : BookmarkParser.parse_chrome data = Raise AttributeError).
  { destruct data; try reflexivity. now destruct (Hdata items). }
  split; [exact Hraise|]. rewrite Hraise. discriminate.
Qed.

Lemma parse_chrome_rejects_a_list :
  (forall items, JList [JString "roots"] <> JDict items)
  /\ @BookmarkParser.parse_chrome plain_urllib (JList [JString "roots"])
     = Raise AttributeError
  /\ @BookmarkParser.parse_chrome plain_urllib (JList [JString "roots"])
     <> Ok [].
Proof.
  split; [discriminate|].
  apply (@parse_chrome_rejects_non_object plain_urllib
           (JList [JString "roots"])).
  discriminate.
Defined.

(** C8: a leaf whose title is the empty string gives a record whose name is
    the empty string, not "Untitled". *)
Lemma empty_title_is_kept :
  exists b,
    @BookmarkParser.parse_chrome plain_urllib empty_name_tree = Ok [b]
    /\ Bookmark.name b = ""
    /\ Bookmark.name b <> "Untitled".
Proof.
  eexists. split; [vm_compute; reflexivity|].
  split; [reflexivity|discriminate].
Qed.

(** C8, amended: for every leaf node whose title and URL are text when
    present and whose URL the URL parser accepts, one record is emitted; its
    name is the node's name field as it is, the empty string included, and
    the default "Untitled" exactly when the node has no name field. *)
Theorem leaf_name_default_only_when_missing `{UrlLib} (fuel : nat)
  (items : list (str * json)) (path : str) (acc : list Bookmark.t) :
  TreeSpec.is_kind "url" (JDict items) = true ->
  TreeSpec.text_or_missing items "name" = true ->
  TreeSpec.text_or_missing items "url" = true ->
  (exists b, TreeSpec.record_of (JDict items, path) = Ok b) ->
  exists b,
    BookmarkParser.traverse (S fuel) (JDict items) path acc = Ok (acc ++ [b])
    /\ match Json.lookup items "name" with
       | Some title => title = JString (Bookmark.name b)
       | None => Bookmark.name b = "Untitled"
       end.
Proof.
  intros Hkind Hname Hurl [b Hb].
  exists b. rewrite (traverse_url _ _ _ _ Hkind Hname Hurl), Hb.
  split; [reflexivity|].
  unfold TreeSpec.record_of, Bookmark.new in Hb. cbn [fst snd] in Hb.
  destruct (urlparse_netloc _); try discriminate.
  cbn [bind] in Hb. injection Hb as <-. cbn [Bookmark.name].
  unfold TreeSpec.text_or_missing in Hname. unfold TreeSpec.field.
  destruct (Json.lookup items "name") as [[]|];
    (reflexivity || discriminate).
Qed.

Lemma leaf_with_empty_title :
  TreeSpec.is_kind "url" (JDict empty_title_leaf) = true
  /\ TreeSpec.text_or_missing empty_title_leaf "name" = true
  /\ TreeSpec.text_or_missing empty_title_leaf "url" = true
  /\ (exists b, @TreeSpec.record_of plain_urllib
                  (JDict empty_title_leaf, "other") = Ok b)
  /\ exists b,
       @BookmarkParser.traverse plain_urllib 1 (JDict empty_title_leaf)
         "other" []
       = Ok ([] ++ [b])
       /\ match Json.lookup empty_title_leaf "name" with
          | Some title => title = JString (Bookmark.name b)
          | None => Bookmark.name b = "Untitled"
          end.
Proof.
  assert (Hrec : exists b,
             @TreeSpec.record_of plain_urllib
               (JDict empty_title_leaf, "other") = Ok b)
    by (eexists; vm_compute; reflexivity).
  repeat split; try reflexivity; try exact Hrec.
  apply (@leaf_name_default_only_when_missing plain_urllib 0
           empty_title_leaf "other" []);
    try reflexivity.
  exact Hrec.
Defined.

(** ** Concepts *)

Section ConceptFacts.

(** The candidate concepts before deduplication: at most five words of the
    clean name and one part of the domain. *)
Lemma firstn_all_short {A} (n : nat) (l : list A) :
  length l <= n -> firstn n l = l.
Proof. apply firstn_all2. Qed.

Lemma set_no_longer (O : SetOrder) (l : list str) :
  length (list_of_set l) <= length l.
Proof.
  apply NoDup_incl_length.
  - apply list_of_set_nodup.
  - intros x Hx. now apply list_of_set_elems.
Qed.

Lemma set_orders_permutation (O1 O2 : SetOrder) (l : list str) :
  Permutation (@list_of_set O1 l) (@list_of_set O2 l).
Proof.
  apply NoDup_Permutation; try apply list_of_set_nodup.
  intros x. rewrite !list_of_set_elems. reflexivity.
Qed.

(** The truncation to eight concepts never drops one. *)
Lemma extract_concepts_all (O : SetOrder) (b : Bookmark.t) :
  exists candidates,
    length candidates <= 6
    /\ (forall O' : SetOrder,
          @extract_concepts O' b = @list_of_set O' candidates).
Proof.
  unfold extract_concepts. cbn [app].
  match goal with
  | |- context [list_of_set ?l] => exists l
  end.
  assert (Hlen : forall (words : list str) (parts : list str),
             length
               (map lower
                  (filter (fun c : str => 3 <? length c)
                     match parts with
                     | part :: _ => firstn 5 words ++ [part]
                     | [] => firstn 5 words
                     end)) <= 6).
  { intros words parts. rewrite length_map.
    etransitivity; [apply filter_length_le|].
    pose proof (firstn_le_length 5 words) as Hw.
    destruct parts.
    - transitivity 5; [exact Hw|lia].
    - rewrite length_app. cbn [length]. transitivity (5 + 1); [|lia].
      apply Nat.add_le_mono_r. exact Hw. }
  split; [apply Hlen|].
  intros O'. apply firstn_all_short.
  etransitivity; [apply set_no_longer|].
  etransitivity; [apply Hlen|]. lia.
Qed.

End ConceptFacts.

(** C9: on the bookmark "Awesome CLI Tool - GitHub" two iteration orders of
    the set give two different concept lists. *)
Lemma concepts_order_not_fixed :
  exists b, awesome_cli_tool = Ok b
    /\ @extract_concepts set_order_a b = ["awesome"; "tool"; "github"]
    /\ @extract_concepts set_order_b b = ["github"; "tool"; "awesome"]
    /\ @extract_concepts set_order_a b <> @extract_concepts set_order_b b.
Proof.
  eexists. split; [vm_compute; reflexivity|].
  repeat split; try (vm_compute; reflexivity).
  vm_compute. discriminate.
Qed.

(** C9, amended: two runs of the concept extraction on the same bookmark give
    the same concepts, each once: the two lists are permutations of one
    another and have no duplicates.  Their order is the iteration order of
    the interpreter's set, which the program does not fix. *)
Theorem concepts_same_elements (O1 O2 : SetOrder) (b : Bookmark.t) :
  Permutation (@extract_concepts O1 b) (@extract_concepts O2 b)
  /\ NoDup (@extract_concepts O1 b)
  /\ NoDup (@extract_concepts O2 b).
Proof.
  destruct (extract_concepts_all O1 b) as (candidates & _ & Hall).
  rewrite !Hall. repeat split.
  - apply set_orders_permutation.
  - apply list_of_set_nodup.
  - apply list_of_set_nodup.
Qed.

(** ** The analysis reads the title and the URL only *)

Section AnalyzeFacts.
Context `{SetOrder}.

Lemma fold_left_related {A B} (f : A -> B -> A) (R : B -> B -> Prop)
  (l1 l2 : list B) :
  Forall2 R l1 l2 ->
  (forall a x y, R x y -> f a x = f a y) ->
  forall a, fold_left f l1 a = fold_left f l2 a.
Proof.
  intros Hrel Hstep. induction Hrel as [|x y l1 l2 Hxy _ IH]; intros a.
  - reflexivity.
  - cbn [fold_left]. rewrite (Hstep a x y Hxy). apply IH.
Qed.

Lemma analyze_same_text (bs1 bs2 : list Bookmark.t) (buildable_only : bool) :
  Forall2 same_text bs1 bs2 ->
  analyze bs1 buildable_only = analyze bs2 buildable_only.
Proof.
  intros Hsame. unfold analyze. f_equal.
  apply (fold_left_related _ same_text _ _ Hsame).
  intros ideas b1 b2 (Hn & Hu & Hd & Hc).
  assert (Hcat : categorize b1 = categorize b2)
    by (unfold categorize, search_text; now rewrite Hn, Hu, Hd).
  assert (Hcon : extract_concepts b1 = extract_concepts b2)
    by (unfold extract_concepts; now rewrite Hc, Hd).
  assert (Hcalc : forall category,
             calculate_buildability b1 category
             = calculate_buildability b2 category)
    by (intros category; unfold calculate_buildability;
        now rewrite Hn, Hu).
  now rewrite Hcat, Hcon, Hcalc, Hc, Hu, Hn.
Qed.

End AnalyzeFacts.

Lemma same_source_same_text `{UrlLib} (b1 b2 : Bookmark.t) :
  same_source b1 b2 -> same_text b1 b2.
Proof.
  intros (name & url & d1 & p1 & d2 & p2 & H1 & H2).
  unfold Bookmark.new in H1, H2.
  destruct (urlparse_netloc url); try discriminate.
  cbn [bind] in H1, H2. injection H1 as <-. injection H2 as <-.
  repeat split.
Qed.

(** C10: for two sequences of bookmarks that agree, position by position, on
    title and URL (each pair built from the same title and URL, with any
    dates and folder paths), the analysis gives the same ideas: title,
    category, concepts, buildable_score, weekend_feasible and reasoning are
    the same, as are URL and source title, with and without the filter. *)
Theorem analyze_ignores_date_and_folder `{UrlLib} `{SetOrder}
  (bs1 bs2 : list Bookmark.t) (buildable_only : bool) :
  Forall2 same_source bs1 bs2 ->
  analyze bs1 buildable_only = analyze bs2 buildable_only.
Proof.
  intros Hsame. apply analyze_same_text.
  induction Hsame as [|b1 b2 bs1 bs2 Hb _ IH]; constructor.
  - exact (same_source_same_text b1 b2 Hb).
  - exact IH.
Qed.

Lemma analyze_two_bookmarks :
  Forall2 (@same_source plain_urllib) two_bookmarks_a two_bookmarks_b
  /\ @analyze set_order_a two_bookmarks_a false
     = @analyze set_order_a two_bookmarks_b false.
Proof.
  assert (Hsame : Forall2 (@same_source plain_urllib)
                    two_bookmarks_a two_bookmarks_b).
  { repeat constructor.
    - exists "Awesome CLI Tool - GitHub", "https://github.com/foo/bar".
      do 4 eexists. split; vm_compute; reflexivity.
    - exists "Distributed Infrastructure Platform", "https://example.com".
      do 4 eexists. split; vm_compute; reflexivity. }
  split; [exact Hsame|].
  exact (@analyze_ignores_date_and_folder plain_urllib set_order_a
           two_bookmarks_a two_bookmarks_b false Hsame).
Defined.

(** * Further properties *)

(** ** Stable insertion sort *)

Section SortFacts.
Context {A : Type} (pass : A -> A -> bool) (D : A -> Prop).

Hypothesis pass_asym :
  forall a b, D a -> D b -> pass a b = true -> pass b a = false.
Hypothesis pass_negtrans :
  forall a b c, D a -> D b -> D c ->
    pass a b = false -> pass b c = false -> pass a c = false.

Local Abbreviation placed := (fun a b : A => pass a b = false).

Lemma insert_by_perm (x : A) (l : list A) :
  Permutation (insert_by pass x l) (x :: l).
Proof.
  induction l as [|y l IH]; [reflexivity|].
  cbn [insert_by]. destruct (pass x y); [|reflexivity].
  rewrite IH. apply perm_swap.
Qed.

Lemma sort_by_perm (l : list A) : Permutation (sort_by pass l) l.
Proof.
  induction l as [|x l IH]; [reflexivity|].
  cbn [sort_by fold_right]. rewrite insert_by_perm.
  constructor. exact IH.
Qed.

Lemma sort_by_domain (l : list A) : Forall D l -> Forall D (sort_by pass l).
Proof.
  intros Hl. rewrite Forall_forall in Hl |- *. intros x Hx.
  apply Hl. exact (Permutation_in _ (sort_by_perm l) Hx).
Qed.

Lemma insert_by_sorted (x : A) (l : list A) :
  D x -> Forall D l ->
  StronglySorted placed l -> StronglySorted placed (insert_by pass x l).
Proof.
  intros Hx Hl Hs. induction Hs as [|y l Hs IH Hy].
  - repeat constructor.
  - apply Forall_cons_iff in Hl as [Dy Dl].
    cbn [insert_by]. destruct (pass x y) eqn:Hxy.
    + constructor; [now apply IH|].
      rewrite Forall_forall in Hy |- *. intros z Hz.
      apply (Permutation_in _ (insert_by_perm x l)) in Hz.
      destruct Hz as [<-|Hz]; [now apply pass_asym|now apply Hy].
    + constructor; [now constructor|].
      constructor; [exact Hxy|].
      rewrite Forall_forall in Hy, Dl |- *. intros z Hz.
      apply (pass_negtrans x y z); auto.
Qed.

Lemma sort_by_sorted (l : list A) :
  Forall D l -> StronglySorted placed (sort_by pass l).
Proof.
  induction l as [|x l IH]; intros Hl; [constructor|].
  apply Forall_cons_iff in Hl as [Dx Dl].
  change (sort_by pass (x :: l)) with (insert_by pass x (sort_by pass l)).
  apply insert_by_sorted; auto. now apply sort_by_domain.
Qed.

(** Removing elements from a sorted list and inserting commute. *)
Lemma filter_insert_by (keep : A -> bool) (x : A) (l : list A) :
  D x -> Forall D l -> StronglySorted placed l ->
  filter keep (insert_by pass x l)
  = if keep x then insert_by pass x (filter keep l) else filter keep l.
Proof.
  intros Hx Hl Hs. induction Hs as [|y l Hs IH Hy].
  - cbn. now destruct (keep x).
  - apply Forall_cons_iff in Hl as [Dy Dl].
    cbn [insert_by]. destruct (pass x y) eqn:Hxy.
    + cbn [filter]. rewrite (IH Dl).
      destruct (keep y), (keep x); cbn [insert_by]; now rewrite ?Hxy.
    + cbn [filter]. destruct (keep x); [|reflexivity].
      destruct (keep y) eqn:Hky.
      * cbn [insert_by]. now rewrite Hxy.
      * destruct (filter keep l) as [|z rest] eqn:Hf; [reflexivity|].
        cbn [insert_by].
        assert (Hz : In z l).
        { assert (Hin : In z (filter keep l)) by (rewrite Hf; now left).
          now apply filter_In in Hin. }
        rewrite Forall_forall in Hy, Dl.
        now rewrite (pass_negtrans x y z Hx Dy (Dl z Hz) Hxy (Hy z Hz)).
Qed.

Lemma filter_sort_by (keep : A -> bool) (l : list A) :
  Forall D l ->
  filter keep (sort_by pass l) = sort_by pass (filter keep l).
Proof.
  induction l as [|x l IH]; intros Hl; [reflexivity|].
  apply Forall_cons_iff in Hl as [Dx Dl].
  cbn [filter].
  change (sort_by pass (x :: l)) with (insert_by pass x (sort_by pass l)).
  rewrite filter_insert_by;
    [|exact Dx|now apply sort_by_domain|now apply sort_by_sorted].
  rewrite (IH Dl). now destruct (keep x).
Qed.

(** A list in which no element has to pass another is left as it is. *)
Lemma sort_by_fixed (l : list A) :
  (forall a b, In a l -> In b l -> pass a b = false) -> sort_by pass l = l.
Proof.
  induction l as [|x l IH]; intros Hl; [reflexivity|].
  change (sort_by pass (x :: l)) with (insert_by pass x (sort_by pass l)).
  rewrite IH by (intros a b Ha Hb; apply Hl; now right).
  destruct l as [|y l]; [reflexivity|].
  cbn [insert_by]. rewrite Hl; [reflexivity|now left|right; now left].
Qed.

End SortFacts.

(** ** The ranking *)

Section RankingFacts.
Import Ranking.

Lemma producible_scores_ranked :
  forallb (fun '(a, ra) =>
    forallb (fun '(b, rb) =>
      Bool.eqb (PrimFloat.ltb a b) (ra <? rb)
      && Bool.eqb (PrimFloat.leb a b) (ra <=? rb)
      && Bool.eqb (PrimFloat.eqb a b) (ra =? rb))
      ranked_scores)
    ranked_scores = true.
Proof. vm_compute. reflexivity. Qed.

(** On the producible scores the comparisons of floats are those of the
    ranks. *)
Lemma compare_by_rank (a b : float) :
  In a producible_scores -> In b producible_scores ->
  PrimFloat.ltb a b = (rank a <? rank b)
  /\ PrimFloat.leb a b = (rank a <=? rank b)
  /\ PrimFloat.eqb a b = (rank a =? rank b).
Proof.
  intros Ha Hb.
  assert (Hin : forall s, In s producible_scores -> In (s, rank s) ranked_scores).
  { intros s Hs. unfold ranked_scores. apply in_map_iff. now exists s. }
  pose proof producible_scores_ranked as Hall.
  rewrite forallb_forall in Hall.
  specialize (Hall (a, rank a) (Hin a Ha)). cbv beta iota in Hall.
  rewrite forallb_forall in Hall.
  specialize (Hall (b, rank b) (Hin b Hb)). cbv beta iota in Hall.
  rewrite !andb_true_iff in Hall. destruct Hall as [[H1 H2] H3].
  apply eqb_prop in H1, H2, H3. auto.
Qed.

Context `{SetOrder}.

Local Abbreviation producible :=
  (fun idea => In (ProjectIdea.buildable_score idea) producible_scores).

Lemma score_producible (b : Bookmark.t) (category : str) :
  In (fst (calculate_buildability b category)) producible_scores.
Proof.
  rewrite calculate_buildability_factors. cbv zeta. cbn [fst].
  unfold producible_scores. apply in_map_iff.
  match goal with
  | |- context [Scoring.additive_score ?e ?h ?c ?g] =>
      exists (e, h, c, g)
  end.
  split; [reflexivity|].
  apply in_combinations.
  - exact (count_le_length _ EASY_INDICATORS).
  - exact (count_le_length _ HARD_INDICATORS).
Qed.

Lemma idea_of_score (bm : Bookmark.t) :
  ProjectIdea.buildable_score (idea_of bm)
  = fst (calculate_buildability bm (categorize bm)).
Proof.
  unfold idea_of. now destruct (calculate_buildability bm (categorize bm)).
Qed.

Lemma idea_of_feasible (bm : Bookmark.t) :
  ProjectIdea.weekend_feasible (idea_of bm)
  = geb (ProjectIdea.buildable_score (idea_of bm)) 0.6%float.
Proof.
  unfold idea_of. now destruct (calculate_buildability bm (categorize bm)).
Qed.

Lemma idea_of_producible (bm : Bookmark.t) : producible (idea_of bm).
Proof. cbv beta. rewrite idea_of_score. apply score_producible. Qed.

Lemma collected_producible (bs : list Bookmark.t) (flag : bool) :
  Forall producible (collected bs flag).
Proof.
  apply Forall_forall. intros idea Hin. unfold collected in Hin.
  apply filter_In in Hin as [Hin _].
  apply in_map_iff in Hin as (bm & <- & _). apply idea_of_producible.
Qed.

(** [analyze] collects the kept ideas and sorts them. *)
Lemma analyze_loop (bs : list Bookmark.t) (flag : bool) :
  forall ideas,
    fold_left
      (fun ideas bm =>
         let category := categorize bm in
         let concepts := extract_concepts bm in
         let '(score, reasoning) := calculate_buildability bm category in
         let weekend_feasible := geb score 0.6%float in
         if flag && negb weekend_feasible then ideas
         else ideas ++ [ {| ProjectIdea.title := Bookmark.clean_name bm;
                            ProjectIdea.url := Bookmark.url bm;
                            ProjectIdea.category := category;
                            ProjectIdea.concepts := concepts;
                            ProjectIdea.buildable_score := score;
                            ProjectIdea.weekend_feasible := weekend_feasible;
                            ProjectIdea.reasoning := reasoning;
                            ProjectIdea.source_bookmark := Bookmark.name bm |} ])
      bs ideas
    = ideas ++ collected bs flag.
Proof.
  induction bs as [|bm bs IH]; intros ideas.
  - unfold collected. simpl. now rewrite app_nil_r.
  - cbn [fold_left]. rewrite IH.
    change (collected (bm :: bs) flag)
      with (if kept flag (idea_of bm)
            then idea_of bm :: collected bs flag
            else collected bs flag).
    pose proof (idea_of_feasible bm) as Hfeasible.
    pose proof (idea_of_score bm) as Hscore.
    assert (Hidea :
      forall score reasoning,
        calculate_buildability bm (categorize bm) = (score, reasoning) ->
        idea_of bm
        = {| ProjectIdea.title := Bookmark.clean_name bm;
             ProjectIdea.url := Bookmark.url bm;
             ProjectIdea.category := categorize bm;
             ProjectIdea.concepts := extract_concepts bm;
             ProjectIdea.buildable_score := score;
             ProjectIdea.weekend_feasible := geb score 0.6%float;
             ProjectIdea.reasoning := reasoning;
             ProjectIdea.source_bookmark := Bookmark.name bm |})
      by (intros score reasoning Hc; unfold idea_of; now rewrite Hc).
    unfold kept. rewrite Hfeasible, Hscore.
    destruct (calculate_buildability bm (categorize bm))
      as [score reasoning].
    rewrite <- (Hidea score reasoning eq_refl). cbn [fst].
    destruct (flag && negb (geb score 0.6%float)); cbn [negb].
    + reflexivity.
    + now rewrite <- app_assoc.
Qed.

Lemma insert_desc_insert_by (x : ProjectIdea.t) (l : list ProjectIdea.t) :
  insert_desc x l = insert_by below x l.
Proof.
  induction l as [|y l IH]; [reflexivity|].
  cbn [insert_desc insert_by]. unfold below at 1. now rewrite IH.
Qed.

Lemma sort_desc_sort_by (l : list ProjectIdea.t) :
  sort_desc l = sort_by below l.
Proof.
  induction l as [|x l IH]; [reflexivity|].
  cbn [sort_desc sort_by fold_right].
  rewrite insert_desc_insert_by. f_equal. exact IH.
Qed.

Lemma analyze_collected (bs : list Bookmark.t) (flag : bool) :
  analyze bs flag = sort_by below (collected bs flag).
Proof.
  unfold analyze. rewrite analyze_loop, app_nil_l. apply sort_desc_sort_by.
Qed.

Lemma below_asym (a b : ProjectIdea.t) :
  producible a -> producible b -> below a b = true -> below b a = false.
Proof.
  intros Ha Hb. unfold below.
  destruct (compare_by_rank _ _ Ha Hb) as (-> & _ & _).
  destruct (compare_by_rank _ _ Hb Ha) as (-> & _ & _).
  rewrite Nat.ltb_lt, Nat.ltb_ge. lia.
Qed.

Lemma below_negtrans (a b c : ProjectIdea.t) :
  producible a -> producible b -> producible c ->
  below a b = false -> below b c = false -> below a c = false.
Proof.
  intros Ha Hb Hc. unfold below.
  destruct (compare_by_rank _ _ Ha Hb) as (-> & _ & _).
  destruct (compare_by_rank _ _ Hb Hc) as (-> & _ & _).
  destruct (compare_by_rank _ _ Ha Hc) as (-> & _ & _).
  rewrite !Nat.ltb_ge. lia.
Qed.

Lemma StronglySorted_weaken {A} (R R' : A -> A -> Prop) (l : list A) :
  (forall a b, In a l -> In b l -> R a b -> R' a b) ->
  StronglySorted R l -> StronglySorted R' l.
Proof.
  intros Himp Hs. induction Hs as [|x l Hs IH Hx]; constructor.
  - apply IH. intros a b Ha Hb. apply Himp; now right.
  - rewrite Forall_forall in Hx |- *. intros y Hy.
    apply Himp; [now left|now right|now apply Hx].
Qed.

Lemma analyze_sorted_below (bs : list Bookmark.t) (flag : bool) :
  StronglySorted (fun a b => below a b = false) (analyze bs flag).
Proof.
  rewrite analyze_collected.
  apply (sort_by_sorted below _ below_asym below_negtrans).
  apply collected_producible.
Qed.

Lemma analyze_permutation (bs : list Bookmark.t) (flag : bool) :
  Permutation (analyze bs flag) (collected bs flag).
Proof. rewrite analyze_collected. apply sort_by_perm. Qed.

Lemma analyze_filter (keep : ProjectIdea.t -> bool) (bs : list Bookmark.t)
  (flag : bool) :
  filter keep (analyze bs flag) = sort_by below (filter keep (collected bs flag)).
Proof.
  rewrite analyze_collected.
  apply (filter_sort_by below _ below_asym below_negtrans).
  apply collected_producible.
Qed.

Lemma collected_filtered (bs : list Bookmark.t) :
  collected bs true = filter ProjectIdea.weekend_feasible (collected bs false).
Proof.
  unfold collected. induction (map idea_of bs) as [|idea l IH]; [reflexivity|].
  cbn [filter]. rewrite IH.
  assert (Hf : kept false idea = true) by reflexivity.
  assert (Ht : kept true idea = ProjectIdea.weekend_feasible idea)
    by (unfold kept; cbn [andb]; apply negb_involutive).
  rewrite Hf, Ht. reflexivity.
Qed.

End RankingFacts.

Section RankingProperties.
Import Ranking.
Context `{SetOrder}.

Lemma analyze_true_filter (bs : list Bookmark.t) :
  analyze bs true = filter ProjectIdea.weekend_feasible (analyze bs false).
Proof.
  rewrite (analyze_filter _ bs false), <- collected_filtered.
  apply analyze_collected.
Qed.

Lemma idea_of_fields (bm : Bookmark.t) :
  ProjectIdea.source_bookmark (idea_of bm) = Bookmark.name bm
  /\ ProjectIdea.title (idea_of bm) = Bookmark.clean_name bm
  /\ ProjectIdea.url (idea_of bm) = Bookmark.url bm
  /\ ProjectIdea.category (idea_of bm) = categorize bm
  /\ ProjectIdea.concepts (idea_of bm) = extract_concepts bm
  /\ ProjectIdea.reasoning (idea_of bm)
     = snd (calculate_buildability bm (categorize bm)).
Proof.
  unfold idea_of. destruct (calculate_buildability bm (categorize bm)).
  repeat split.
Qed.

Lemma collected_all (bs : list Bookmark.t) :
  collected bs false = map idea_of bs.
Proof.
  unfold collected. induction (map idea_of bs) as [|idea l IH];
    [reflexivity|].
  cbn [filter]. change (kept false idea) with true. now rewrite IH.
Qed.

Lemma score_in_unit_interval (idea : ProjectIdea.t) :
  In (ProjectIdea.buildable_score idea) producible_scores ->
  Scoring.in_unit_interval (ProjectIdea.buildable_score idea) = true.
Proof.
  unfold producible_scores. intros Hin.
  apply in_map_iff in Hin as ([[[e h] c] g] & <- & Hin).
  pose proof clamped_scores_in_unit_interval as Hall.
  rewrite forallb_forall in Hall. exact (Hall _ Hin).
Qed.

End RankingProperties.

(** X1: the ideas that [analyze] returns are ranked by score, highest
    first: no idea has a higher score than an idea placed before it. *)
Theorem analyze_ranked_non_increasing `{SetOrder} (bs : list Bookmark.t)
  (buildable_only : bool) :
  StronglySorted
    (fun earlier later =>
       PrimFloat.leb (ProjectIdea.buildable_score later)
                     (ProjectIdea.buildable_score earlier) = true)
    (analyze bs buildable_only).
Proof.
  apply (StronglySorted_weaken (fun a b => Ranking.below a b = false)).
  - intros a b Ha Hb Hab.
    pose proof (collected_producible bs buildable_only) as Hdom.
    rewrite Forall_forall in Hdom.
    apply (Permutation_in _ (analyze_permutation bs buildable_only)) in Ha, Hb.
    unfold Ranking.below in Hab.
    destruct (compare_by_rank _ _ (Hdom a Ha) (Hdom b Hb)) as (Hlt & _ & _).
    destruct (compare_by_rank _ _ (Hdom b Hb) (Hdom a Ha)) as (_ & Hle & _).
    rewrite Hle. rewrite Hlt in Hab.
    apply Nat.ltb_ge in Hab. now apply Nat.leb_le.
  - apply analyze_sorted_below.
Qed.

(** X2: the sort of [analyze] is stable: the ideas whose score equals the
    score of a given bookmark come in the order of their bookmarks, that is
    in the order in which the loop collected them. *)
Theorem analyze_keeps_input_order_on_ties `{SetOrder} (bs : list Bookmark.t)
  (buildable_only : bool) (b0 : Bookmark.t) :
  let v := ProjectIdea.buildable_score (Ranking.idea_of b0) in
  filter (Ranking.same_score v) (analyze bs buildable_only)
  = filter (Ranking.same_score v) (Ranking.collected bs buildable_only).
Proof.
  intros v. rewrite analyze_filter. apply sort_by_fixed.
  intros a b Ha Hb.
  apply filter_In in Ha as [Ha Hav]. apply filter_In in Hb as [Hb Hbv].
  pose proof (collected_producible bs buildable_only) as Hdom.
  rewrite Forall_forall in Hdom.
  pose proof (idea_of_producible b0) as Hv. cbv beta in Hv. fold v in Hv.
  unfold Ranking.same_score in Hav, Hbv. unfold Ranking.below.
  destruct (compare_by_rank _ _ (Hdom a Ha) Hv) as (_ & _ & Hea).
  destruct (compare_by_rank _ _ (Hdom b Hb) Hv) as (_ & _ & Heb).
  destruct (compare_by_rank _ _ (Hdom a Ha) (Hdom b Hb)) as (-> & _ & _).
  rewrite Hea in Hav. rewrite Heb in Hbv.
  apply Nat.eqb_eq in Hav, Hbv. apply Nat.ltb_ge. lia.
Qed.

(** X3: the filter of [analyze] drops the ideas that are not
    weekend-feasible and changes nothing else: the filtered ranking is the
    full ranking without them, in the same order. *)
Theorem analyze_buildable_only_filters_ranking `{SetOrder}
  (bs : list Bookmark.t) :
  analyze bs true = filter ProjectIdea.weekend_feasible (analyze bs false).
Proof.
  rewrite (analyze_filter ProjectIdea.weekend_feasible bs false).
  rewrite <- collected_filtered.
  apply analyze_collected.
Qed.

(** X4: without the filter [analyze] returns one idea per bookmark, no more
    and no fewer: the source titles of the ideas are the titles of the
    bookmarks, rearranged. *)
Theorem analyze_one_idea_per_bookmark `{SetOrder} (bs : list Bookmark.t) :
  length (analyze bs false) = length bs
  /\ Permutation (map ProjectIdea.source_bookmark (analyze bs false))
                 (map Bookmark.name bs).
Proof.
  pose proof (analyze_permutation bs false) as Hperm.
  rewrite collected_all in Hperm. split.
  - rewrite (Permutation_length Hperm). apply length_map.
  - rewrite (Permutation_map ProjectIdea.source_bookmark Hperm).
    rewrite map_map.
    erewrite map_ext; [reflexivity|].
    intros bm. apply idea_of_fields.
Qed.

(** X5: every idea that [analyze] returns comes from a bookmark of the
    input, whose title, clean title, URL and category it carries; its score
    lies in [0, 1]; it is marked weekend-feasible exactly when its score is
    at least 0.6; and under the filter it is weekend-feasible. *)
Theorem analyze_idea_invariants `{SetOrder} (bs : list Bookmark.t)
  (buildable_only : bool) :
  Forall
    (fun idea =>
       (exists bm,
           In bm bs
           /\ ProjectIdea.source_bookmark idea = Bookmark.name bm
           /\ ProjectIdea.title idea = Bookmark.clean_name bm
           /\ ProjectIdea.url idea = Bookmark.url bm
           /\ ProjectIdea.category idea = categorize bm)
       /\ PrimFloat.leb 0.0%float (ProjectIdea.buildable_score idea) = true
       /\ PrimFloat.leb (ProjectIdea.buildable_score idea) 1.0%float = true
       /\ ProjectIdea.weekend_feasible idea
          = PrimFloat.leb 0.6%float (ProjectIdea.buildable_score idea)
       /\ (negb buildable_only || ProjectIdea.weekend_feasible idea) = true)
    (analyze bs buildable_only).
Proof.
  apply Forall_forall. intros idea Hin.
  apply (Permutation_in _ (analyze_permutation bs buildable_only)) in Hin.
  unfold Ranking.collected in Hin. apply filter_In in Hin as [Hin Hkept].
  apply in_map_iff in Hin as (bm & <- & Hbm).
  destruct (idea_of_fields bm) as (Hs & Ht & Hu & Hc & _).
  pose proof (score_in_unit_interval _ (idea_of_producible bm)) as Hunit.
  apply andb_true_iff in Hunit as [Hlo Hhi].
  repeat split; try assumption.
  - exists bm. auto.
  - apply idea_of_feasible.
  - unfold Ranking.kept in Hkept.
    destruct buildable_only; [|reflexivity].
    cbn [andb negb orb] in Hkept |- *. now apply negb_true_iff, negb_false_iff in Hkept.
Qed.

(** X6: the number of weekend-feasible ideas that [main] prints is the
    number that the reports of [OutputFormatter] state, with and without
    [--buildable], and the filter does not change it. *)
Theorem weekend_count_consistent `{SetOrder} (bs : list Bookmark.t)
  (buildable : bool) :
  Summary.weekend_count buildable (analyze bs buildable)
  = Summary.weekend_feasible (analyze bs buildable)
  /\ Summary.weekend_feasible (analyze bs buildable)
     = Summary.weekend_feasible (analyze bs false).
Proof.
  assert (Hidem : forall l : list ProjectIdea.t,
             filter ProjectIdea.weekend_feasible
               (filter ProjectIdea.weekend_feasible l)
             = filter ProjectIdea.weekend_feasible l).
  { induction l as [|x l IH]; [reflexivity|].
    cbn [filter]. destruct (ProjectIdea.weekend_feasible x) eqn:E;
      [cbn [filter]; now rewrite E, IH|exact IH]. }
  unfold Summary.weekend_count, Summary.weekend_feasible, count.
  destruct buildable; [|split; reflexivity].
  rewrite analyze_true_filter, Hidem. split; reflexivity.
Qed.

(** ** Concepts, categories and reasons *)

Section HeuristicFacts.

Lemma lower_chr_idempotent (c : ascii) : lower_chr (lower_chr c) = lower_chr c.
Proof.
  destruct c as [[] [] [] [] [] [] [] []]; vm_compute; reflexivity.
Qed.

Lemma lower_idempotent (s : str) : lower (lower s) = lower s.
Proof.
  unfold lower. rewrite map_map. apply map_ext. apply lower_chr_idempotent.
Qed.

Lemma lower_app (a b : str) : lower (a ++ b) = lower a ++ lower b.
Proof. apply map_app. Qed.

Lemma lower_length (s : str) : length (lower s) = length s.
Proof. apply length_map. Qed.

(** The candidates of [extract_concepts], spelled out. *)
Lemma extract_concepts_candidates (O : SetOrder) (b : Bookmark.t) :
  let words :=
    firstn 5 (Re.findall words_pattern (Bookmark.clean_name b)) in
  let parts := split "."%char (remove "www." (Bookmark.domain b)) in
  let candidates :=
    map lower
      (filter (fun c : str => 3 <? length c)
         match parts with
         | part :: _ => words ++ [part]
         | [] => words
         end) in
  extract_concepts b = list_of_set candidates.
Proof.
  intros words parts candidates.
  destruct (extract_concepts_all O b) as (candidates' & Hlen & Hall).
  unfold extract_concepts. cbn [app]. fold words. fold parts. fold candidates.
  apply firstn_all2.
  etransitivity; [apply set_no_longer|].
  unfold candidates. rewrite length_map.
  etransitivity; [apply filter_length_le|].
  pose proof (firstn_le_length 5
                (Re.findall words_pattern (Bookmark.clean_name b))) as Hw.
  fold words in Hw.
  destruct parts.
  - transitivity 5; [exact Hw|lia].
  - rewrite length_app. cbn [length]. transitivity (5 + 1); [|lia].
    apply Nat.add_le_mono_r. exact Hw.
Qed.

Lemma split_nonempty (c : ascii) (s : str) : split c s <> [].
Proof.
  destruct s as [|x s]; [discriminate|].
  cbn [split]. destruct (Ascii.eqb x c); [discriminate|].
  destruct (split c s); discriminate.
Qed.

(** [categorize] returns a key of the table, or "other". *)
Lemma categorize_in_table (b : Bookmark.t) :
  categorize b = "other" \/ In (categorize b) (map fst CATEGORIES).
Proof.
  pose proof (first_highest_in_table (search_text b) CATEGORIES) as Htable.
  unfold categorize. rewrite scores_of_table, app_nil_l.
  cbv zeta in Htable.
  destruct (filter _ (map _ CATEGORIES)) as [|first rest]; [now left|].
  right. destruct Htable as (before & winner & after & Hsplit & -> & _).
  apply in_map. rewrite Hsplit. apply in_or_app. right. now left.
Qed.

Lemma no_factor_reasoning :
  forallb (fun '(easy, hard, cls, github) =>
             Bool.eqb
               (str_eqb (Scoring.reasoning_of
                           (Scoring.notes easy hard cls github))
                        "Standard project complexity")
               ((easy =? 0) && (hard =? 0)
                && match cls with Scoring.Neutral => true | _ => false end
                && negb github)
             && negb (str_eqb (Scoring.reasoning_of
                                 (Scoring.notes easy hard cls github)) ""))
          (Scoring.combinations 8 6) = true.
Proof. vm_compute. reflexivity. Qed.

Lemma feasible_needs_a_bonus :
  forallb (fun '(easy, hard, cls, github) =>
             implb (PrimFloat.leb 0.6%float
                      (Scoring.clamp
                         (Scoring.additive_score easy hard cls github)))
                   ((0 <? easy)
                    || match cls with Scoring.Friendly => true | _ => false end
                    || github))
          (Scoring.combinations 8 6) = true.
Proof. vm_compute. reflexivity. Qed.

End HeuristicFacts.

(** X7: the concepts of a bookmark are at most 6 (so the cut at 8 never
    drops one); each has more than 3 characters, is in lower case, and is
    the lower-cased form of one of the first five words found in the clean
    title or of the first label of the domain without "www.". *)
Theorem concepts_are_long_lowercase_words (O : SetOrder) (b : Bookmark.t) :
  length (extract_concepts b) <= 6
  /\ Forall
       (fun c =>
          3 < length c
          /\ lower c = c
          /\ exists source,
               c = lower source
               /\ (In source
                     (firstn 5 (Re.findall words_pattern
                                  (Bookmark.clean_name b)))
                   \/ source
                      = hd "" (split "."%char
                                 (remove "www." (Bookmark.domain b)))))
       (extract_concepts b).
Proof.
  rewrite extract_concepts_candidates. cbv zeta.
  set (words := firstn 5 (Re.findall words_pattern (Bookmark.clean_name b))).
  set (parts := split "."%char (remove "www." (Bookmark.domain b))).
  split.
  - etransitivity; [apply set_no_longer|].
    rewrite length_map. etransitivity; [apply filter_length_le|].
    pose proof (firstn_le_length 5
                  (Re.findall words_pattern (Bookmark.clean_name b))) as Hw.
    fold words in Hw. destruct parts.
    + transitivity 5; [exact Hw|lia].
    + rewrite length_app. cbn [length]. transitivity (5 + 1); [|lia].
      apply Nat.add_le_mono_r. exact Hw.
  - apply Forall_forall. intros c Hc.
    apply (proj1 (list_of_set_elems _ _)) in Hc.
    apply in_map_iff in Hc as (source & <- & Hsource).
    apply filter_In in Hsource as [Hsource Hlen].
    apply Nat.ltb_lt in Hlen.
    split; [now rewrite lower_length|].
    split; [apply lower_idempotent|].
    exists source. split; [reflexivity|].
    destruct parts as [|part parts]; [now left|].
    apply in_app_or in Hsource as [Hw|[<-|[]]]; [now left|now right].
Qed.

(** X8: [categorize] returns one of the ten categories of the table or
    "other"; it never returns "cli", "infrastructure" or "platform", the
    three categories that [calculate_buildability] tests for and that the
    table does not have. *)
Theorem categorize_closed_set (b : Bookmark.t) :
  In (categorize b)
     ["tools"; "saas"; "games"; "hardware"; "web"; "ai_ml"; "data";
      "creative"; "dev_ops"; "mobile"; "other"]
  /\ categorize b <> "cli"
  /\ categorize b <> "infrastructure"
  /\ categorize b <> "platform".
Proof.
  assert (Hin : In (categorize b)
                  ["tools"; "saas"; "games"; "hardware"; "web"; "ai_ml";
                   "data"; "creative"; "dev_ops"; "mobile"; "other"]).
  { destruct (categorize_in_table b) as [->|Hin].
    - simpl. tauto.
    - change (map fst CATEGORIES)
        with ["tools"; "saas"; "games"; "hardware"; "web"; "ai_ml"; "data";
              "creative"; "dev_ops"; "mobile"] in Hin.
      change (In (categorize b)
                (["tools"; "saas"; "games"; "hardware"; "web"; "ai_ml";
                  "data"; "creative"; "dev_ops"; "mobile"] ++ ["other"])).
      apply in_or_app. now left. }
  split; [exact Hin|].
  repeat split; intros Heq; rewrite Heq in Hin; simpl in Hin;
    repeat (destruct Hin as [Hin|Hin]; [discriminate Hin|]); exact Hin.
Qed.

(** X9: [categorize] ignores the case of letters: two bookmarks whose
    titles, URLs and domains agree up to case get the same category. *)
Theorem categorize_ignores_case (b1 b2 : Bookmark.t) :
  lower (Bookmark.name b1) = lower (Bookmark.name b2) ->
  lower (Bookmark.url b1) = lower (Bookmark.url b2) ->
  lower (Bookmark.domain b1) = lower (Bookmark.domain b2) ->
  categorize b1 = categorize b2.
Proof.
  intros Hn Hu Hd. unfold categorize, search_text.
  rewrite !lower_app, Hn, Hu, Hd. reflexivity.
Qed.

(** X10: the reasoning of [calculate_buildability] is never empty, and it
    is the default "Standard project complexity" exactly when no factor
    applies: no easy and no hard indicator in the text, a category outside
    both lists, and no github.com in the URL. *)
Theorem reasoning_default_iff_no_factor (b : Bookmark.t) (category : str) :
  let text := lower (Bookmark.name b ++ " " ++ Bookmark.url b) in
  let easy := count (fun ind => contains ind text) EASY_INDICATORS in
  let hard := count (fun ind => contains ind text) HARD_INDICATORS in
  let reasoning := snd (calculate_buildability b category) in
  str_eqb reasoning "Standard project complexity"
  = (easy =? 0) && (hard =? 0)
    && negb (existsb (str_eqb category)
               ["tools"; "cli"; "web"; "hardware"; "infrastructure";
                "platform"])
    && negb (contains "github.com" (Bookmark.url b))
  /\ str_eqb reasoning "" = false.
Proof.
  intros text easy hard reasoning. subst reasoning.
  rewrite calculate_buildability_factors. cbv zeta. cbn [snd].
  fold text. fold easy. fold hard.
  pose proof no_factor_reasoning as Hall.
  rewrite forallb_forall in Hall.
  specialize (Hall (easy, hard, Scoring.class_of category,
                    contains "github.com" (Bookmark.url b))).
  cbv beta iota in Hall.
  assert (Hin : In (easy, hard, Scoring.class_of category,
                    contains "github.com" (Bookmark.url b))
                   (Scoring.combinations 8 6)).
  { apply in_combinations.
    - exact (count_le_length _ EASY_INDICATORS).
    - exact (count_le_length _ HARD_INDICATORS). }
  apply Hall in Hin. apply andb_true_iff in Hin as [H1 H2].
  apply eqb_prop in H1. apply negb_true_iff in H2.
  split; [|exact H2].
  rewrite H1. f_equal. f_equal.
  unfold Scoring.class_of. cbn [existsb].
  destruct (str_eqb category "tools"), (str_eqb category "cli"),
    (str_eqb category "web"), (str_eqb category "hardware"),
    (str_eqb category "infrastructure"), (str_eqb category "platform");
    reflexivity.
Qed.

(** X11: a bookmark is weekend-feasible only with a bonus: when its score
    is at least 0.6, its text has an easy indicator, or its category is one
    of tools, cli, web, or its URL contains github.com. *)
Theorem feasible_only_with_bonus (b : Bookmark.t) (category : str) :
  PrimFloat.leb 0.6%float (fst (calculate_buildability b category)) = true ->
  0 < count (fun ind =>
               contains ind (lower (Bookmark.name b ++ " " ++ Bookmark.url b)))
            EASY_INDICATORS
  \/ existsb (str_eqb category) ["tools"; "cli"; "web"] = true
  \/ contains "github.com" (Bookmark.url b) = true.
Proof.
  rewrite calculate_buildability_factors. cbv zeta. cbn [fst].
  set (text := lower (Bookmark.name b ++ " " ++ Bookmark.url b)).
  set (easy := count (fun ind => contains ind text) EASY_INDICATORS).
  set (hard := count (fun ind => contains ind text) HARD_INDICATORS).
  intros Hfeasible.
  pose proof feasible_needs_a_bonus as Hall.
  rewrite forallb_forall in Hall.
  specialize (Hall (easy, hard, Scoring.class_of category,
                    contains "github.com" (Bookmark.url b))).
  cbv beta iota in Hall.
  rewrite Hfeasible in Hall. cbn [implb] in Hall.
  assert (Hin : In (easy, hard, Scoring.class_of category,
                    contains "github.com" (Bookmark.url b))
                   (Scoring.combinations 8 6)).
  { apply in_combinations.
    - exact (count_le_length _ EASY_INDICATORS).
    - exact (count_le_length _ HARD_INDICATORS). }
  apply Hall in Hin. rewrite !orb_true_iff in Hin.
  destruct Hin as [[He|Hc]|Hg].
  - left. now apply Nat.ltb_lt.
  - right. left. unfold Scoring.class_of in Hc.
    destruct (existsb (str_eqb category) ["tools"; "cli"; "web"]);
      [reflexivity|].
    destruct (existsb (str_eqb category)
                ["hardware"; "infrastructure"; "platform"]); discriminate.
  - right. right. exact Hg.
Qed.

Lemma categorize_ignores_case_example :
  lower (Bookmark.name shouting_bookmark)
  = lower (Bookmark.name quiet_bookmark)
  /\ lower (Bookmark.url shouting_bookmark)
     = lower (Bookmark.url quiet_bookmark)
  /\ lower (Bookmark.domain shouting_bookmark)
     = lower (Bookmark.domain quiet_bookmark)
  /\ categorize shouting_bookmark = categorize quiet_bookmark.
Proof.
  split; [reflexivity|]. split; [reflexivity|]. split; [reflexivity|].
  apply (categorize_ignores_case shouting_bookmark quiet_bookmark);
    reflexivity.
Defined.

Lemma feasible_only_with_bonus_example :
  PrimFloat.leb 0.6%float
    (fst (calculate_buildability quiet_bookmark "tools")) = true
  /\ (0 < count (fun ind =>
                   contains ind
                     (lower (Bookmark.name quiet_bookmark ++ " "
                             ++ Bookmark.url quiet_bookmark)))
                EASY_INDICATORS
      \/ existsb (str_eqb "tools") ["tools"; "cli"; "web"] = true
      \/ contains "github.com" (Bookmark.url quiet_bookmark) = true).
Proof.
  split; [vm_compute; reflexivity|].
  apply (feasible_only_with_bonus quiet_bookmark "tools").
  vm_compute. reflexivity.
Defined.

(** ** The clean title is a part of the title *)

Section CleanNameParts.
Import SuffixSpec.

Lemma cut_prefix (s : str) : exists post, s = cut s ++ post.
Proof.
  induction s as [|c s [post IH]]; [now exists []|].
  change (cut (c :: s))
    with (if matches_here (c :: s) then [] else c :: cut s).
  destruct (matches_here (c :: s)).
  - now exists (c :: s).
  - exists post. cbn [app]. now rewrite <- IH.
Qed.

Lemma dropwhile_suffix (f : ascii -> bool) (s : str) :
  exists pre, s = pre ++ dropwhile f s /\ forallb f pre = true.
Proof.
  induction s as [|c s (pre & IH & Hpre)]; [now exists []|].
  cbn [dropwhile]. destruct (f c) eqn:Hc.
  - exists (c :: pre). cbn [app forallb]. rewrite Hc, Hpre. now rewrite <- IH.
  - now exists [].
Qed.

Lemma rstrip_prefix (f : ascii -> bool) (s : str) :
  exists post, s = rstrip_of f s ++ post.
Proof.
  unfold rstrip_of.
  destruct (dropwhile_suffix f (rev s)) as (pre & Heq & _).
  exists (rev pre).
  rewrite <- rev_app_distr, <- Heq. now rewrite rev_involutive.
Qed.

Lemma strip_part (s : str) : exists pre post, s = pre ++ strip s ++ post.
Proof.
  unfold strip, lstrip_of.
  destruct (dropwhile_suffix isspace s) as (pre & Heq & _).
  destruct (rstrip_prefix isspace (dropwhile isspace s)) as (post & Hpost).
  exists pre, post. now rewrite <- Hpost.
Qed.

Lemma dropwhile_head (f : ascii -> bool) (s : str) (c : ascii) (t : str) :
  dropwhile f s = c :: t -> f c = false.
Proof.
  induction s as [|x s IH]; [discriminate|].
  cbn [dropwhile]. destruct (f x) eqn:Hx; [exact IH|].
  intros Heq. injection Heq as <- _. exact Hx.
Qed.

Lemma dropwhile_idempotent (f : ascii -> bool) (s : str) :
  dropwhile f (dropwhile f s) = dropwhile f s.
Proof.
  destruct (dropwhile f s) as [|c t] eqn:Hd; [reflexivity|].
  cbn [dropwhile]. now rewrite (dropwhile_head _ _ _ _ Hd).
Qed.

(** Stripping a stripped text changes nothing. *)
Lemma strip_idempotent (s : str) : strip (strip s) = strip s.
Proof.
  unfold strip, lstrip_of.
  set (t := dropwhile isspace s).
  assert (Hl : dropwhile isspace (rstrip_of isspace t) = rstrip_of isspace t).
  { destruct (rstrip_of isspace t) as [|c r] eqn:Hr; [reflexivity|].
    destruct (rstrip_prefix isspace t) as (post & Hpost).
    rewrite Hr in Hpost. cbn [app] in Hpost.
    cbn [dropwhile].
    now rewrite (dropwhile_head isspace s c (r ++ post) Hpost). }
  rewrite Hl. unfold rstrip_of. rewrite rev_involutive.
  now rewrite dropwhile_idempotent.
Qed.

End CleanNameParts.

(** X12: the clean title only removes text: it is a contiguous part of the
    title; it is empty only for an empty title; and it is either the title
    itself or a text without whitespace at its ends. *)
Theorem clean_name_is_part_of_name (name : str) :
  (exists pre post, name = pre ++ Bookmark._clean_name name ++ post)
  /\ (name = [] \/ Bookmark._clean_name name <> [])
  /\ (Bookmark._clean_name name = name
      \/ strip (Bookmark._clean_name name) = Bookmark._clean_name name).
Proof.
  unfold Bookmark._clean_name, Re.sub_empty. rewrite sub_empty_cut.
  destruct (strip (SuffixSpec.cut name)) as [|c stripped] eqn:Hstrip.
  - repeat split.
    + exists [], []. now rewrite app_nil_r.
    + destruct name; [now left|right; discriminate].
    + now left.
  - repeat split.
    + destruct (cut_prefix name) as (post & Hcut).
      destruct (strip_part (SuffixSpec.cut name)) as (pre & post' & Hpart).
      rewrite Hstrip in Hpart.
      exists pre, (post' ++ post).
      rewrite Hcut at 1. rewrite Hpart at 1.
      now rewrite <- !app_assoc.
    + right. discriminate.
    + right. rewrite <- Hstrip. apply strip_idempotent.
Qed.

(** ** What the extraction reads and where it files the records *)

Section ExtractionFacts.
Context `{UrlLib}.
Import BookmarkParser.

Lemma item_depth (l : list (str * json)) (kv : str * json) :
  In kv l -> Json.depth (snd kv) < Json.depth (JDict l).
Proof.
  cbn [Json.depth]. induction l as [|x l IH]; intros Hin; [destruct Hin|].
  cbn [map Json.list_max]. destruct Hin as [->|Hin].
  - lia.
  - specialize (IH Hin). lia.
Qed.

(** The loop over the roots comes down to the roots on the allow-list, each
    traversed with its own depth as fuel. *)
Lemma roots_loop (fuel : nat) (roots : list (str * json)) :
  (forall kv, In kv roots -> Json.depth (snd kv) <= fuel) ->
  forall acc,
    for_each roots
      (fun '(root_name, root_node) bookmarks =>
         if existsb (str_eqb root_name) allowed_roots
         then traverse fuel root_node root_name bookmarks
         else Ok bookmarks)
      acc
    = for_each (filter (fun kv => TreeSpec.allowed (fst kv)) roots)
        (fun kv bookmarks =>
           traverse (Json.depth (snd kv)) (snd kv) (fst kv) bookmarks)
        acc.
Proof.
  induction roots as [|[root_name root_node] roots IH]; intros Hfuel acc;
    [reflexivity|].
  cbn [for_each filter fst]. unfold TreeSpec.allowed at 1.
  assert (Hrest : forall kv, In kv roots -> Json.depth (snd kv) <= fuel)
    by (intros kv Hkv; apply Hfuel; now right).
  destruct (existsb (str_eqb root_name) allowed_roots).
  - cbn [for_each fst snd].
    rewrite (traverse_fuel_irrelevant fuel (Json.depth root_node));
      [|exact (Hfuel (root_name, root_node) (or_introl eq_refl))|lia].
    destruct (traverse (Json.depth root_node) root_node root_name acc);
      cbn [bind]; try reflexivity.
    now apply IH.
  - cbn [bind]. now apply IH.
Qed.

Lemma parse_chrome_roots (items roots : list (str * json)) :
  Json.lookup items "roots" = Some (JDict roots) ->
  parse_chrome (JDict items)
  = for_each (filter (fun kv => TreeSpec.allowed (fst kv)) roots)
      (fun kv bookmarks =>
         traverse (Json.depth (snd kv)) (snd kv) (fst kv) bookmarks)
      [].
Proof.
  intros Hroots. unfold parse_chrome. cbn [Json.get bind]. rewrite Hroots.
  cbn [Json.items bind]. apply roots_loop.
  intros kv Hkv. pose proof (item_depth _ _ Hkv).
  pose proof (lookup_depth _ _ _ Hroots). lia.
Qed.








End ExtractionFacts.

(** X13: [parse_chrome] reads nothing but the roots on the allow-list
    (bookmark_bar, other, synced): two files whose allow-listed roots are the
    same, in the same order, give the same outcome, whatever else they
    contain beside [roots] and whatever the other roots hold. *)
Theorem parse_chrome_reads_allowed_roots_only `{UrlLib}
  (items items' roots roots' : list (str * json)) :
  Json.lookup items "roots" = Some (JDict roots) ->
  Json.lookup items' "roots" = Some (JDict roots') ->
  filter (fun kv => TreeSpec.allowed (fst kv)) roots
  = filter (fun kv => TreeSpec.allowed (fst kv)) roots' ->
  BookmarkParser.parse_chrome (JDict items)
  = BookmarkParser.parse_chrome (JDict items').
Proof.
  intros Hroots Hroots' Hsame.
  rewrite (parse_chrome_roots _ _ Hroots), (parse_chrome_roots _ _ Hroots').
  now rewrite Hsame.
Qed.


Lemma sample_tree_and_pruned :
  TreeSpec.allowed_root_nodes sample_tree
  = TreeSpec.allowed_root_nodes sample_tree_pruned
  /\ @BookmarkParser.parse_chrome plain_urllib sample_tree
     = @BookmarkParser.parse_chrome plain_urllib sample_tree_pruned.
Proof.
  split; [reflexivity|].
  unfold sample_tree, sample_tree_pruned.
  eapply (@parse_chrome_reads_allowed_roots_only plain_urllib);
    reflexivity.
Defined.


(** ** Success of the extraction *)

Section SuccessFacts.
Context `{UrlLib}.
Import BookmarkParser TreeSpec.






End SuccessFacts.



(** ** The score follows the factors *)

Section MonotoneFacts.
Import Factors.

Lemma scores_monotone :
  forallb (fun x =>
    forallb (fun y =>
      implb (at_most_as_favourable x y)
            (PrimFloat.leb (score_of x) (score_of y)))
      (Scoring.combinations 8 6))
    (Scoring.combinations 8 6) = true.
Proof. vm_compute. reflexivity. Qed.

Lemma score_by_factors (b : Bookmark.t) (category : str) :
  fst (calculate_buildability b category)
  = score_of (easy_count b, hard_count b, Scoring.class_of category,
              contains "github.com" (Bookmark.url b))
  /\ In (easy_count b, hard_count b, Scoring.class_of category,
         contains "github.com" (Bookmark.url b))
        (Scoring.combinations 8 6).
Proof.
  rewrite calculate_buildability_factors. split; [reflexivity|].
  apply in_combinations.
  - exact (count_le_length _ EASY_INDICATORS).
  - exact (count_le_length _ HARD_INDICATORS).
Qed.

End MonotoneFacts.

(** X16: the score follows the factors: of two bookmarks, the one with at
    least as many easy indicators, at most as many hard indicators, a
    category adjustment at least as good (penalty, none, bonus) and the
    GitHub bonus if the other has it, has at least the score of the
    other. *)
Theorem score_monotone_in_factors (b1 b2 : Bookmark.t)
  (category1 category2 : str) :
  Factors.easy_count b1 <= Factors.easy_count b2 ->
  Factors.hard_count b2 <= Factors.hard_count b1 ->
  Factors.class_level (Scoring.class_of category1)
  <= Factors.class_level (Scoring.class_of category2) ->
  (contains "github.com" (Bookmark.url b1) = true ->
   contains "github.com" (Bookmark.url b2) = true) ->
  PrimFloat.leb (fst (calculate_buildability b1 category1))
                (fst (calculate_buildability b2 category2)) = true.
Proof.
  intros He Hh Hc Hg.
  destruct (score_by_factors b1 category1) as [-> Hin1].
  destruct (score_by_factors b2 category2) as [-> Hin2].
  pose proof scores_monotone as Hall.
  rewrite forallb_forall in Hall. specialize (Hall _ Hin1).
  rewrite forallb_forall in Hall. specialize (Hall _ Hin2).
  assert (Hle : Factors.at_most_as_favourable
                  (Factors.easy_count b1, Factors.hard_count b1,
                   Scoring.class_of category1,
                   contains "github.com" (Bookmark.url b1))
                  (Factors.easy_count b2, Factors.hard_count b2,
                   Scoring.class_of category2,
                   contains "github.com" (Bookmark.url b2)) = true).
  { unfold Factors.at_most_as_favourable.
    rewrite !andb_true_iff, !Nat.leb_le. repeat split; try assumption.
    destruct (contains "github.com" (Bookmark.url b1)); [|reflexivity].
    now rewrite Hg. }
  rewrite Hle in Hall. exact Hall.
Qed.

Lemma score_monotone_example :
  Factors.easy_count shouting_bookmark <= Factors.easy_count quiet_bookmark
  /\ Factors.hard_count quiet_bookmark <= Factors.hard_count shouting_bookmark
  /\ Factors.class_level (Scoring.class_of "hardware")
     <= Factors.class_level (Scoring.class_of "tools")
  /\ PrimFloat.leb (fst (calculate_buildability shouting_bookmark "hardware"))
                   (fst (calculate_buildability quiet_bookmark "tools"))
     = true.
Proof.
  split; [vm_compute; lia|]. split; [vm_compute; lia|].
  split; [vm_compute; lia|].
  apply (score_monotone_in_factors shouting_bookmark quiet_bookmark
           "hardware" "tools").
  - vm_compute. lia.
  - vm_compute. lia.
  - vm_compute. lia.
  - vm_compute. discriminate.
Defined.

(** ** The sections of the Markdown report *)

Section MarkdownFacts.
Import Markdown.

Lemma str_eqb_eq (a b : str) : str_eqb a b = true <-> a = b.
Proof.
  revert b. induction a as [|x a IH]; intros [|y b]; cbn [str_eqb];
    try (split; [discriminate|discriminate]); [tauto|].
  rewrite andb_true_iff, Ascii.eqb_eq, IH.
  split; [intros [-> ->]; reflexivity|intros [= -> ->]; auto].
Qed.

Lemma str_eqb_refl (a : str) : str_eqb a a = true.
Proof. now apply str_eqb_eq. Qed.

Lemma str_eqb_neq (a b : str) : str_eqb a b = false <-> a <> b.
Proof.
  rewrite <- str_eqb_eq. destruct (str_eqb a b); split; congruence.
Qed.

Lemma code_injective (x y : ascii) : code x = code y -> x = y.
Proof.
  unfold code. intros Heq.
  rewrite <- (ascii_N_embedding x), <- (ascii_N_embedding y).
  now rewrite Heq.
Qed.

Lemma str_ltb_asym (a : str) :
  forall b, str_ltb a b = true -> str_ltb b a = false.
Proof.
  induction a as [|x a IH]; intros [|y b]; cbn [str_ltb]; try congruence.
  destruct (N.ltb_spec (code x) (code y)), (N.ltb_spec (code y) (code x));
    try congruence; try lia.
  apply IH.
Qed.

Lemma str_ltb_negtrans (a : str) :
  forall b c,
    str_ltb a b = false -> str_ltb b c = false -> str_ltb a c = false.
Proof.
  induction a as [|x a IH]; intros [|y b] [|z c]; cbn [str_ltb];
    try congruence.
  destruct (N.ltb_spec (code x) (code y)), (N.ltb_spec (code y) (code x)),
    (N.ltb_spec (code y) (code z)), (N.ltb_spec (code z) (code y)),
    (N.ltb_spec (code x) (code z)), (N.ltb_spec (code z) (code x));
    try congruence; try lia.
  apply IH.
Qed.

Lemma str_ltb_total (a : str) :
  forall b, str_ltb a b = false -> str_ltb b a = false -> a = b.
Proof.
  induction a as [|x a IH]; intros [|y b]; cbn [str_ltb]; try congruence.
  destruct (N.ltb_spec (code x) (code y)), (N.ltb_spec (code y) (code x));
    try congruence.
  intros Hab Hba. f_equal; [apply code_injective; lia|now apply IH].
Qed.

(** Under distinct keys, [setdefault_append] extends the list of its key,
    or adds the key at the end. *)
Lemma setdefault_append_map (d : list (str * list ProjectIdea.t)) (k : str)
  (idea : ProjectIdea.t) :
  NoDup (map fst d) ->
  setdefault_append d k idea
  = map (fun e => if str_eqb (fst e) k then (fst e, snd e ++ [idea]) else e) d
    ++ (if existsb (fun e => str_eqb (fst e) k) d then [] else [(k, [idea])]).
Proof.
  induction d as [|[k' group] d IH]; intros Hnodup; [reflexivity|].
  cbn [map fst] in Hnodup. apply NoDup_cons_iff in Hnodup as [Hk' Hnodup].
  cbn [setdefault_append map existsb fst snd app].
  destruct (str_eqb k' k) eqn:Hkk.
  - apply str_eqb_eq in Hkk. subst k'. cbn [orb]. rewrite app_nil_r.
    f_equal. rewrite <- (map_id d) at 1. apply map_ext_in.
    intros [k2 g2] Hin. cbn [fst snd].
    destruct (str_eqb k2 k) eqn:Hk2; [|reflexivity].
    apply str_eqb_eq in Hk2. subst k2.
    destruct Hk'. now apply (in_map fst) in Hin.
  - cbn [orb]. now rewrite (IH Hnodup).
Qed.

Lemma setdefault_append_keys (d : list (str * list ProjectIdea.t)) (k : str)
  (idea : ProjectIdea.t) :
  map fst (setdefault_append d k idea)
  = map fst d ++ (if existsb (fun e => str_eqb (fst e) k) d then [] else [k]).
Proof.
  induction d as [|[k' group] d IH]; [reflexivity|].
  cbn [setdefault_append existsb fst].
  destruct (str_eqb k' k); cbn [orb map fst app].
  - now rewrite app_nil_r.
  - now rewrite IH.
Qed.

Lemma existsb_key (d : list (str * list ProjectIdea.t)) (k : str) :
  existsb (fun e => str_eqb (fst e) k) d = true <-> In k (map fst d).
Proof.
  rewrite existsb_exists, in_map_iff. split.
  - intros (e & Hin & Heq). apply str_eqb_eq in Heq. now exists e.
  - intros (e & <- & Hin). exists e. split; [exact Hin|apply str_eqb_refl].
Qed.

(** The dictionary holds, under each category met, the ideas of that
    category in their order. *)
Lemma by_category_spec (ideas : list ProjectIdea.t) :
  NoDup (map fst (by_category ideas))
  /\ Forall (fun sec => snd sec = filter (of_category (fst sec)) ideas
                        /\ snd sec <> [])
            (by_category ideas)
  /\ Forall (fun idea => In (ProjectIdea.category idea)
                            (map fst (by_category ideas)))
            ideas.
Proof.
  induction ideas as [|idea ideas (Hnodup & Hgroups & Hkeys)] using rev_ind.
  - repeat split; constructor.
  - unfold by_category in *. rewrite fold_left_app. cbn [fold_left].
    set (d := fold_left _ ideas []) in *.
    set (k := ProjectIdea.category idea).
    assert (Hnone : existsb (fun e => str_eqb (fst e) k) d = false ->
                    filter (of_category k) ideas = []).
    { intros Hex.
      destruct (filter (of_category k) ideas) as [|x rest] eqn:Hf;
        [reflexivity|].
      assert (Hx : In x (filter (of_category k) ideas))
        by (rewrite Hf; now left).
      apply filter_In in Hx as [Hx Hcat].
      unfold of_category in Hcat. apply str_eqb_eq in Hcat.
      rewrite Forall_forall in Hkeys. specialize (Hkeys x Hx).
      rewrite Hcat in Hkeys. apply existsb_key in Hkeys. congruence. }
    repeat split.
    + rewrite setdefault_append_keys.
      destruct (existsb (fun e => str_eqb (fst e) k) d) eqn:Hex.
      * now rewrite app_nil_r.
      * apply NoDup_app; [exact Hnodup|repeat constructor; intros []|].
        intros x Hx [<-|[]]. apply existsb_key in Hx. congruence.
    + rewrite (setdefault_append_map _ _ _ Hnodup).
      apply Forall_app. split.
      * apply Forall_map. eapply Forall_impl; [|exact Hgroups].
        intros [k' group] [Hgroup Hne]. cbn [fst snd] in *.
        destruct (str_eqb k' k) eqn:Hkk; cbn [fst snd];
          rewrite filter_app; cbn [filter]; unfold of_category at 2;
          fold k.
        -- apply str_eqb_eq in Hkk. subst k'. rewrite str_eqb_refl.
           rewrite <- Hgroup. split; [reflexivity|]. intros Habs.
           apply app_eq_nil in Habs as [_ Habs]. discriminate.
        -- assert (Hkk' : str_eqb k k' = false).
           { apply str_eqb_neq. apply str_eqb_neq in Hkk. congruence. }
           rewrite Hkk', app_nil_r. split; assumption.
      * destruct (existsb (fun e => str_eqb (fst e) k) d) eqn:Hex;
          constructor; [|constructor].
        cbn [fst snd]. rewrite filter_app, (Hnone eq_refl). cbn [filter].
        unfold of_category. fold k. rewrite str_eqb_refl.
        split; [reflexivity|discriminate].
    + rewrite setdefault_append_keys. apply Forall_app. split.
      * eapply Forall_impl; [|exact Hkeys].
        intros x Hx. apply in_or_app. now left.
      * constructor; [|constructor]. fold k.
        destruct (existsb (fun e => str_eqb (fst e) k) d) eqn:Hex.
        -- rewrite app_nil_r. now apply existsb_key.
        -- apply in_or_app. right. now left.
Qed.

Lemma sections_perm (ideas : list ProjectIdea.t) :
  Permutation (sections ideas) (by_category ideas).
Proof. apply sort_by_perm. Qed.

(** A list of sections with distinct keys in which no section comes before
    one of a smaller key is in strictly increasing order of keys. *)
Lemma sorted_distinct_strict (l : list (str * list ProjectIdea.t)) :
  NoDup (map fst l) ->
  StronglySorted (fun a b => str_ltb (fst b) (fst a) = false) l ->
  StronglySorted (fun a b => str_ltb (fst a) (fst b) = true) l.
Proof.
  induction l as [|sec l IH]; intros Hdistinct Hsorted; [constructor|].
  cbn [map] in Hdistinct. apply NoDup_cons_iff in Hdistinct as [Hsec Hl].
  apply StronglySorted_inv in Hsorted as [Hsorted Hfirst].
  constructor; [now apply IH|].
  rewrite Forall_forall in Hfirst |- *. intros later Hlater.
  destruct (str_ltb (fst sec) (fst later)) eqn:Hlt; [reflexivity|].
  destruct Hsec. rewrite (str_ltb_total _ _ Hlt (Hfirst later Hlater)).
  now apply in_map.
Qed.

End MarkdownFacts.

(** X17: the sections of the Markdown report come in the order of their
    category names (by code points), each category once; the section of a
    category holds the ideas of that category, all of them, in the order of
    the ranking, and is never empty; and every idea has its section. *)
Theorem markdown_sections (ideas : list ProjectIdea.t) :
  StronglySorted
    (fun earlier later => Markdown.str_ltb (fst earlier) (fst later) = true)
    (Markdown.sections ideas)
  /\ Forall
       (fun sec => snd sec = filter (Markdown.of_category (fst sec)) ideas
                   /\ snd sec <> [])
       (Markdown.sections ideas)
  /\ Forall
       (fun idea => In (ProjectIdea.category idea)
                       (map fst (Markdown.sections ideas)))
       ideas.
Proof.
  destruct (by_category_spec ideas) as (Hnodup & Hgroups & Hkeys).
  pose proof (sections_perm ideas) as Hperm.
  repeat split.
  - assert (Hdistinct : NoDup (map fst (Markdown.sections ideas))).
    { eapply Permutation_NoDup; [|exact Hnodup].
      apply Permutation_map. now symmetry. }
    assert (Hsorted :
      StronglySorted
        (fun a b => Markdown.str_ltb (fst b) (fst a) = false)
        (Markdown.sections ideas)).
    { apply (sort_by_sorted _ (fun _ => True)).
      - intros a b _ _. apply str_ltb_asym.
      - intros a b c _ _ _ Hab Hbc.
        exact (str_ltb_negtrans _ _ _ Hbc Hab).
      - apply Forall_forall. auto. }
    exact (sorted_distinct_strict _ Hdistinct Hsorted).
  - rewrite Forall_forall in Hgroups |- *. intros sec Hsec.
    apply Hgroups. exact (Permutation_in _ Hperm Hsec).
  - rewrite Forall_forall in Hkeys |- *. intros idea Hidea.
    eapply Permutation_in; [|exact (Hkeys idea Hidea)].
    apply Permutation_map. now symmetry.
Qed.
